(** * MusicVAE data preprocessing: a shallow embedding of
      [data_processing/preprocess.py] and the properties of its pipeline.

    The script joins a genre-label file with a tree of MIDI files, extracts
    five normalised features per file, one-hot encodes the genre and writes
    the surviving rows.  Its collaborators (the text stream of the label
    file, [os.walk], [pretty_midi], [numpy], [pandas], [joblib]) are modelled
    by the part of their behaviour the script relies on; each model says so
    in its comment. *)

From Stdlib Require Import ZArith Floats String Ascii List Lia.
From stdpp Require Import base option list strings gmap.
From Equations Require Import Equations.

#[local] Set Warnings "-inexact-float,-register-all".
#[local] Open Scope Z_scope.

(** ** Python values, exceptions and arithmetic *)

Module Py.

(** The exceptions the script can meet.  [WarningError] is a warning turned
    into an exception by the filter ["error"]; [Exception] stands for any
    exception type of a collaborator, by name. *)
Inductive exn : Type :=
| IndexError
| KeyError (keys : list string)
| ValueError
| OverflowError
| ZeroDivisionError
| WarningError (category : string)
| Exception (name : string).

(** An evaluation either returns a value or raises. *)
Inductive result (A : Type) : Type :=
| Ok (a : A)
| Raise (e : exn).
#[global] Arguments Ok {A} a.
#[global] Arguments Raise {A} e.

#[global] Instance result_ret : MRet result := @Ok.
#[global] Instance result_bind : MBind result := fun A B f m =>
  match m with Ok a => f a | Raise e => Raise e end.
#[global] Instance result_fmap : FMap result := fun A B f m =>
  match m with Ok a => Ok (f a) | Raise e => Raise e end.

(** Python numbers: arbitrary-precision [int] and binary64 [float]. *)
Inductive num : Type :=
| Int (z : Z)
| Float (f : float).

(** The integer [z] as an unrounded binary float [z * 2^0]. *)
Definition exact (z : Z) : spec_float :=
  match z with
  | Z0 => S754_zero false
  | Zpos p => S754_finite false p 0
  | Zneg p => S754_finite true p 0
  end.

Definition overflowed (s : spec_float) : bool :=
  match s with S754_infinity _ => true | _ => false end.

(** [float(z)]: round to nearest even, [OverflowError] beyond the range. *)
Definition int_to_float (z : Z) : result float :=
  let s := binary_normalize prec emax z 0 false in
  if overflowed s then Raise OverflowError else Ok (SF2Prim s).

(** [a / b] on two [int]s: the correctly rounded quotient. *)
Definition int_truediv (a b : Z) : result float :=
  if Z.eqb b 0 then Raise ZeroDivisionError
  else
    let q := SFdiv prec emax (exact a) (exact b) in
    if overflowed q then Raise OverflowError else Ok (SF2Prim q).

Definition float_truediv (a b : float) : result float :=
  if PrimFloat.eqb b 0%float then Raise ZeroDivisionError
  else Ok (a / b)%float.

(** [x - y] *)
Definition sub (x y : num) : result num :=
  match x, y with
  | Int a, Int b => Ok (Int (a - b))
  | Float a, Float b => Ok (Float (a - b)%float)
  | Float a, Int b => fb ← int_to_float b; Ok (Float (a - fb)%float)
  | Int a, Float b => fa ← int_to_float a; Ok (Float (fa - b)%float)
  end.

(** [x / y] (true division: the result is always a [float]) *)
Definition truediv (x y : num) : result num :=
  match x, y with
  | Int a, Int b => Float <$> int_truediv a b
  | Float a, Float b => Float <$> float_truediv a b
  | Float a, Int b => fb ← int_to_float b; Float <$> float_truediv a fb
  | Int a, Float b => fa ← int_to_float a; Float <$> float_truediv fa b
  end.

(** [l[i]] for a non-negative index [i]. *)
Definition getitem {A : Type} (l : list A) (i : nat) : result A :=
  match l !! i with
  | Some x => Ok x
  | None => Raise IndexError
  end.

(** *** Strings

    A [str] is modelled by a [string] whose characters are code points below
    256. *)

Definition LF : ascii := "010"%char.
Definition TAB : ascii := "009"%char.
Definition SLASH : ascii := "/"%char.

(** [c.isspace()] on the code points below 256: U+0009..U+000D,
    U+001C..U+0020, U+0085 and U+00A0. *)
Definition isspace (c : ascii) : bool :=
  let n := nat_of_ascii c in
  ((9 <=? n) && (n <=? 13) || (28 <=? n) && (n <=? 32) || (n =? 133) || (n =? 160))%nat.

Fixpoint lstrip (s : string) : string :=
  match s with
  | EmptyString => EmptyString
  | String c r => if isspace c then lstrip r else s
  end.

Fixpoint rstrip (s : string) : string :=
  match s with
  | EmptyString => EmptyString
  | String c r =>
      match rstrip r with
      | EmptyString => if isspace c then EmptyString else String c EmptyString
      | r' => String c r'
      end
  end.

(** [s.strip()] *)
Definition strip (s : string) : string := rstrip (lstrip s).

(** [s.split(sep)] for a one-character separator: never an empty list. *)
Fixpoint split (sep : ascii) (s : string) : list string :=
  match s with
  | EmptyString => [EmptyString]
  | String c r =>
      if Ascii.eqb c sep then EmptyString :: split sep r
      else match split sep r with
           | field :: fields => String c field :: fields
           | [] => [String c EmptyString]
           end
  end.

(** [sep.join(parts)] *)
Fixpoint join (sep : string) (parts : list string) : string :=
  match parts with
  | [] => EmptyString
  | [p] => p
  | p :: ps => p +:+ sep +:+ join sep ps
  end.

(** [parts[-1]] where [parts] comes from [split], which never returns an
    empty list, so that the index cannot be out of range. *)
Definition last_field (parts : list string) : string :=
  List.last parts EmptyString.

(** [s.startswith(c)] *)
Definition startswith (c : ascii) (s : string) : bool :=
  match s with
  | String d _ => Ascii.eqb d c
  | EmptyString => false
  end.

(** [s.endswith(c)] *)
Fixpoint endswith (c : ascii) (s : string) : bool :=
  match s with
  | EmptyString => false
  | String d EmptyString => Ascii.eqb d c
  | String _ r => endswith c r
  end.

(** [d[k]] on a [dict] *)
Definition dict_getitem {V : Type} (d : gmap string V) (k : string) : result V :=
  match d !! k with
  | Some v => Ok v
  | None => Raise (KeyError [k])
  end.

(** A text stream opened for reading is modelled by the text that is left
    to read (decoded, newlines already translated to LF).  [f.readline()]
    returns the next line with its terminator, or the empty string at the
    end of the stream, and the stream after it. *)
Fixpoint readline (f : string) : string * string :=
  match f with
  | EmptyString => (EmptyString, EmptyString)
  | String c rest =>
      if Ascii.eqb c LF then (String c EmptyString, rest)
      else let '(line, rest') := readline rest in (String c line, rest')
  end.

End Py.

Import Py.

(** ** [normalize_features] *)

Definition normalize_features (features : list num) : result (list num) :=
  tempo ← (x ← getitem features 0; d ← sub x (Int 150); truediv d (Int 300));
  num_sig_changes ← (x ← getitem features 1; d ← sub x (Int 2); truediv d (Int 10));
  resolution ← (x ← getitem features 2; d ← sub x (Int 260); truediv d (Int 400));
  time_sig_1 ← (x ← getitem features 3; d ← sub x (Int 3); truediv d (Int 8));
  time_sig_2 ← (x ← getitem features 4; d ← sub x (Int 3); truediv d (Int 8));
  Ok [tempo; num_sig_changes; resolution; time_sig_1; time_sig_2].


(** ** The frames the script builds, one record type per frame *)

Module GenreDf.
Record row : Type := Row { Genre : string; TrackID : string }.
End GenreDf.

Module MidiDf.
Record row : Type := Row { TrackID : string; Path : string }.
End MidiDf.

Module MergedDf.
Record row : Type := Row { TrackID : string; Path : string; Genre : string }.
End MergedDf.

Module MatchedDf.
Record row : Type := Row { Path : string; Genre : string }.
End MatchedDf.

(** ** [get_genres] *)

Lemma readline_length (f : string) :
  (String.length (readline f).1 + String.length (readline f).2)%nat = String.length f.
Proof.
  induction f as [|c r IH]; simpl; [done|].
  destruct (Ascii.eqb c LF); simpl; [done|].
  destruct (readline r); simpl in *. lia.
Qed.

(** The [while line:] loop: [line] is the line just read, [f] the stream. *)
Equations? get_genres_loop (line f : string) (ids genres : list string) :
    result (list string * list string)
  by wf (String.length line + String.length f)%nat lt :=
  get_genres_loop EmptyString f ids genres := Ok (ids, genres);
  get_genres_loop (String c l) f ids genres :=
    if negb (Ascii.eqb c "#") then
      match split TAB (strip (String c l)) with
      | x :: y :: _ =>
          get_genres_loop (readline f).1 (readline f).2 (ids ++ [x]) (genres ++ [y])
      | _ => Raise ValueError
      end
    else get_genres_loop (readline f).1 (readline f).2 ids genres.
Proof.
  all: rewrite readline_length; lia.
Qed.

(** [pd.DataFrame(data={"Genre": genres, "TrackID": ids})] *)
Definition genre_frame (genres ids : list string) : list GenreDf.row :=
  zip_with GenreDf.Row genres ids.

(** [get_genres], given the text of the file at [path]. *)
Definition get_genres (text : string) : result (list GenreDf.row) :=
  let '(line, f) := readline text in
  '(ids, genres) ← get_genres_loop line f [] [];
  Ok (genre_frame genres ids).

(** ** The collaborators *)

(** [os]: a directory is the list of its file names and the list of its
    sub-directories, both in the order in which the directory is scanned.
    Entries that cannot be read are not part of the tree: [os.walk] leaves
    them out without an error. *)
Module os.

Inductive tree : Type :=
| Dir (files : list string) (dirs : list (string * tree)).

(** [os.path.join(a, b)] on POSIX *)
Definition path_join (a b : string) : string :=
  if startswith SLASH b then b
  else if (String.eqb a "" || endswith SLASH a)%bool then a +:+ b
  else a +:+ "/" +:+ b.

(** [os.walk(top)], top-down: the triples [(dirpath, dirnames, filenames)]. *)
Fixpoint walk (top : string) (t : tree) : list (string * list string * list string) :=
  match t with
  | Dir files dirs =>
      (top, fst <$> dirs, files)
      :: flat_map (fun nd => walk (path_join top (fst nd)) (snd nd)) dirs
  end.

End os.

(** [pandas] *)
Module pd.

Section Frames.
Context {L R K A : Type} `{EqDecision K} `{EqDecision A}.

(** [pd.merge(left, right, on=key, how="inner")]: every pair of a left and
    a right row with equal keys, in the order of the left rows.  The
    properties of the join below count rows and do not depend on this
    order. *)
Definition merge_inner (kl : L → K) (kr : R → K) (left : list L) (right : list R) :
    list (L * R) :=
  l ← left; r ← right; if decide (kl l = kr r) then [(l, r)] else [].

(** [Series.unique()]: the distinct values in order of appearance. *)
Fixpoint unique_from (seen : list A) (values : list A) : list A :=
  match values with
  | [] => []
  | x :: rest =>
      if decide (x ∈ seen) then unique_from seen rest
      else x :: unique_from (x :: seen) rest
  end.

Definition unique (values : list A) : list A := unique_from [] values.

End Frames.

End pd.

(** [numpy] *)
Module np.

(** [np.eye(n)]: the rows of the [n] by [n] identity matrix of floats. *)
Definition eye (n : nat) : list (list float) :=
  (fun i => (fun j => if Nat.eqb i j then 1%float else 0%float) <$> seq 0 n) <$> seq 0 n.

(** [a[labels]] for an array of integers [labels]: the rows of [a] at these
    indices, a negative index counting from the end. *)
Definition take {A : Type} (a : list A) (labels : list Z) : result (list A) :=
  let n := Z.of_nat (length a) in
  mapM (fun l =>
          if (0 <=? l) && (l <? n) then getitem a (Z.to_nat l)
          else if (- n <=? l) && (l <? 0) then getitem a (Z.to_nat (l + n))
          else Raise IndexError) labels.

(** The cast of [astype(int)] on one float: truncation towards zero; the
    matrix of [eye] holds only 0.0 and 1.0, the other cases follow the C
    cast on x86-64. *)
Definition astype_int (f : float) : Z :=
  match Prim2SF f with
  | S754_zero _ => 0
  | S754_finite s m e =>
      let v := if 0 <=? e then Z.pos m * 2 ^ e else Z.pos m / 2 ^ (- e) in
      if 2 ^ 63 <=? v then - 2 ^ 63 else if s then - v else v
  | _ => - 2 ^ 63
  end.

End np.

(** [pretty_midi]: what the script reads of a parsed file.  A call into the
    library is modelled by the warnings it emits, in order, and by what it
    returns or raises when warnings only print. *)
Module pretty_midi.

Record call (A : Type) : Type := Call { warned : list string; outcome : result A }.
#[global] Arguments Call {A} warned outcome.
#[global] Arguments warned {A} c.
#[global] Arguments outcome {A} c.

Record TimeSignature : Type := { numerator : Z; denominator : Z }.

Record PrettyMIDI : Type := {
  estimate_tempo : call float;
  time_signature_changes : list TimeSignature;
  resolution : Z
}.

End pretty_midi.

(** [warnings.simplefilter("error")] in force around a call: the first
    warning is raised as an exception at the place that emits it. *)
Definition simplefilter_error {A : Type} (c : pretty_midi.call A) : result A :=
  match pretty_midi.warned c with
  | category :: _ => Raise (WarningError category)
  | [] => pretty_midi.outcome c
  end.

(** The default filter: warnings print and the call goes on. *)
Definition simplefilter_default {A : Type} (c : pretty_midi.call A) : result A :=
  pretty_midi.outcome c.

(** ** [get_matched_midi] *)

(** The loop over [os.walk]: the two lists [track_ids] and [file_paths]. *)
Definition all_midi_lists (midi_folder : string) (fs : os.tree) : list string * list string :=
  foldl (fun '(track_ids, file_paths) '(dir_name, _, file_list) =>
           let track_id := last_field (split SLASH dir_name) in
           let file_path_list := (fun file => join "/" [dir_name; file]) <$> file_list in
           foldl (fun '(track_ids, file_paths) file_path =>
                    (track_ids ++ [track_id], file_paths ++ [file_path]))
                 (track_ids, file_paths) file_path_list)
        ([], []) (os.walk midi_folder fs).

(** [all_midi_df = pd.DataFrame({"TrackID": track_ids, "Path": file_paths})] *)
Definition all_midi_df (midi_folder : string) (fs : os.tree) : list MidiDf.row :=
  let '(track_ids, file_paths) := all_midi_lists midi_folder fs in
  zip_with MidiDf.Row track_ids file_paths.

(** [pd.merge(all_midi_df, genre_df, on="TrackID", how="inner")] *)
Definition merge_on_TrackID (left : list MidiDf.row) (right : list GenreDf.row) :
    list MergedDf.row :=
  (fun '(m, g) => MergedDf.Row (MidiDf.TrackID m) (MidiDf.Path m) (GenreDf.Genre g))
    <$> pd.merge_inner MidiDf.TrackID GenreDf.TrackID left right.

(** [df.drop(["TrackID"], axis=1)] *)
Definition drop_TrackID (df : list MergedDf.row) : list MatchedDf.row :=
  (fun r => MatchedDf.Row (MergedDf.Path r) (MergedDf.Genre r)) <$> df.

Definition get_matched_midi (midi_folder : string) (fs : os.tree)
    (genre_df : list GenreDf.row) : list MatchedDf.row :=
  let df := merge_on_TrackID (all_midi_df midi_folder fs) genre_df in
  drop_TrackID df.

(** ** [one_hot] *)

Definition one_hot (labels : list Z) (num_classes : nat) : result (list (list Z)) :=
  (fun a : list (list float) => (fun r : list float => np.astype_int <$> r) <$> a)
    <$> np.take (np.eye num_classes) labels.

(** ** The processed rows and the frame made of them *)

Module ProcessedDf.
Record row : Type := Row {
  Path : string;
  Genre : string;
  OneHotGenre : list Z;
  Features : option (list num)
}.

(** The keys of the dictionary [process_row] returns. *)
Definition keys (r : row) : list string := ["Path"; "Genre"; "OneHotGenre"; "Features"]%string.

(** [pd.isna] of the cell of [r] in column [c]: only [None] is missing. *)
Definition isna (r : row) (c : string) : bool :=
  if String.eqb c "Features" then bool_decide (Features r = None) else false.

Record frame : Type := Frame { columns : list string; rows : list row }.

(** [pd.DataFrame(data)] for a list of dictionaries: the columns are the
    keys met, so that no dictionary gives no column. *)
Definition DataFrame (data : list row) : frame :=
  {| columns := pd.unique (data ≫= keys); rows := data |}.

(** [df.dropna(subset=subset)]: [KeyError] on a label that is no column. *)
Definition dropna (subset : list string) (df : frame) : result frame :=
  match filter (fun c => c ∉ columns df) subset with
  | [] => Ok {| columns := columns df;
                rows := filter (fun r => forallb (fun c => negb (isna r c)) subset = true)
                               (rows df) |}
  | missing => Raise (KeyError missing)
  end.

(** The document [df.to_json(path, orient="records")] writes: one object
    per row, in order. *)
Definition to_json_records (df : frame) : list row := rows df.
End ProcessedDf.

(** [{genre: idx for idx, genre in enumerate(genre_list)}] *)
Definition enumerate_dict (genre_list : list string) : gmap string Z :=
  foldl (fun d '(idx, genre) => <[genre := Z.of_nat idx]> d) ∅
        (zip (seq 0 (length genre_list)) genre_list).

(** ** The pipeline, for a given behaviour of [pretty_midi.PrettyMIDI] *)

Section Pipeline.

(** [pretty_midi.PrettyMIDI(path)] *)
Variable PrettyMIDI : string → pretty_midi.call pretty_midi.PrettyMIDI.

Definition get_features (path : string) : option (list num) :=
  match
    file ← simplefilter_error (PrettyMIDI path);
    tempo ← simplefilter_error (pretty_midi.estimate_tempo file);
    let num_sig_changes := Z.of_nat (length (pretty_midi.time_signature_changes file)) in
    let resolution := pretty_midi.resolution file in
    let ts_changes := pretty_midi.time_signature_changes file in
    let '(ts_1, ts_2) :=
      match ts_changes with
      | ts :: _ => (pretty_midi.numerator ts, pretty_midi.denominator ts)
      | [] => (4, 4)
      end in
    normalize_features [Float tempo; Int num_sig_changes; Int resolution; Int ts_1; Int ts_2]
  with
  | Ok features => Some features
  | Raise _ => None
  end.

Definition process_row (row : MatchedDf.row) (genre_dict : gmap string Z)
    (num_classes : nat) : result ProcessedDf.row :=
  let features := get_features (MatchedDf.Path row) in
  genre_id ← dict_getitem genre_dict (MatchedDf.Genre row);
  one_hot_genre ← (encoded ← one_hot [genre_id] num_classes; getitem encoded 0);
  Ok {| ProcessedDf.Path := MatchedDf.Path row;
        ProcessedDf.Genre := MatchedDf.Genre row;
        ProcessedDf.OneHotGenre := one_hot_genre;
        ProcessedDf.Features := features |}.

(** The statements of [save_matching_csv] before the write.  [Parallel]
    returns the results of the calls in the order of the rows and raises
    what a call raises. *)
Definition processed_frame (genre_text : string) (midi_folder : string) (fs : os.tree) :
    result ProcessedDf.frame :=
  genre_df ← get_genres genre_text;
  let matched_df := get_matched_midi midi_folder fs genre_df in
  let genre_list := pd.unique (MatchedDf.Genre <$> matched_df) in
  let genre_dict := enumerate_dict genre_list in
  let num_classes := length genre_list in
  processed_data ← mapM (fun row => process_row row genre_dict num_classes) matched_df;
  let processed_df := ProcessedDf.DataFrame processed_data in
  ProcessedDf.dropna ["Features"%string] processed_df.

(** [save_matching_csv], on the text [genre_text] of the file at
    [genre_path] and the tree [fs] found at [midi_folder]; [disk] maps the
    path of an output file to the document written there. *)
Definition save_matching_csv (genre_text : string) (midi_folder : string) (fs : os.tree)
    (output_path : string) (disk : gmap string (list ProcessedDf.row)) :
    result unit * gmap string (list ProcessedDf.row) :=
  match processed_frame genre_text midi_folder fs with
  | Ok processed_df =>
      (Ok tt, <[output_path := ProcessedDf.to_json_records processed_df]> disk)
  | Raise e => (Raise e, disk)
  end.

End Pipeline.

(** ** Fixtures: the worlds the examples below run in *)

Module Fixture.
#[local] Open Scope string_scope.

Definition tab : string := String TAB "".
Definition nl : string := String LF "".

(** A label file: a comment, then one record. *)
Definition labels : string := "#comment" +:+ nl +:+ "TRK001" +:+ tab +:+ "Rock" +:+ nl.

(** A line with an identifier and an empty second field. *)
Definition labels_empty_genre : string := "TRK001" +:+ tab +:+ nl.

(** A line with no tab at all. *)
Definition labels_one_field : string := "TRK001" +:+ tab +:+ "Rock" +:+ nl +:+ "TRK002" +:+ nl.

(** [root/TRK001/song.mid] and [root/TRK002/other.mid]. *)
Definition fs : os.tree :=
  os.Dir [] [("TRK001", os.Dir ["song.mid"] []); ("TRK002", os.Dir ["other.mid"] [])].

(** A directory with one file directly in it. *)
Definition fs_flat : os.tree := os.Dir ["song.mid"] [].

(** 120 BPM, no time-signature change, resolution 480. *)
Definition song : pretty_midi.PrettyMIDI :=
  {| pretty_midi.estimate_tempo := pretty_midi.Call [] (Ok 120%float);
     pretty_midi.time_signature_changes := [];
     pretty_midi.resolution := 480 |}.

(** A file with fewer than two notes: parsed, but no tempo estimate. *)
Definition silent : pretty_midi.PrettyMIDI :=
  {| pretty_midi.estimate_tempo := pretty_midi.Call [] (Raise ValueError);
     pretty_midi.time_signature_changes := [];
     pretty_midi.resolution := 480 |}.

(** Every file parses to [song]. *)
Definition all_valid (path : string) : pretty_midi.call pretty_midi.PrettyMIDI :=
  pretty_midi.Call [] (Ok song).

(** Every file is corrupted: the parser raises. *)
Definition all_corrupted (path : string) : pretty_midi.call pretty_midi.PrettyMIDI :=
  pretty_midi.Call [] (Raise (Exception "OSError")).

(** Every file parses, with a warning on the way. *)
Definition all_warn (path : string) : pretty_midi.call pretty_midi.PrettyMIDI :=
  pretty_midi.Call ["RuntimeWarning"] (Ok song).

(** Every file parses to [silent]. *)
Definition all_silent (path : string) : pretty_midi.call pretty_midi.PrettyMIDI :=
  pretty_midi.Call [] (Ok silent).

(** Two files under [TRK001], and two labels for [TRK001]. *)
Definition fs_two : os.tree :=
  os.Dir [] [("TRK001", os.Dir ["bad.mid"; "song.mid"] [])].

Definition labels_two : string :=
  "TRK001" +:+ tab +:+ "Rock" +:+ nl +:+ "TRK001" +:+ tab +:+ "Jazz" +:+ nl.

(** [bad.mid] is corrupted, every other file parses to [song]. *)
Definition one_corrupted (path : string) : pretty_midi.call pretty_midi.PrettyMIDI :=
  if String.eqb path "root/TRK001/bad.mid"
  then pretty_midi.Call [] (Raise (Exception "OSError"))
  else pretty_midi.Call [] (Ok song).

(** Matched rows with the genres Rock, Jazz, Rock. *)
Definition matched_three : list MatchedDf.row :=
  [MatchedDf.Row "a.mid" "Rock"; MatchedDf.Row "b.mid" "Jazz"; MatchedDf.Row "c.mid" "Rock"].

(** The normalised features of [song]. *)
Definition song_features : list num :=
  Float <$> [-0.1; -0.2; 0.55; 0.125; 0.125]%float.

End Fixture.

#[local] Arguments Ascii.eqb : simpl never.
#[local] Arguments String.eqb : simpl never.

(** ** Properties of [normalize_features] *)

(** The rescale of one feature, [(x - c) / d], as Python evaluates it. *)
Definition rescale (x : num) (c d : Z) : result num :=
  y ← sub x (Int c); truediv y (Int d).

(** C1: [normalize_features] is the affine rescale with the constants
    (150, 300), (2, 10), (260, 400), (3, 8), (3, 8): on any five numbers the
    result is the list of the five rescaled values, evaluated in order; on
    five floats it is [(x - c) / d] in binary64 and never fails; on the raw
    features [120, 0, 480, 4, 4], with the tempo an [int] or a [float], it
    is [-0.1, -0.2, 0.55, 0.125, 0.125].  The function reads no state: the
    same list always gives the same result. *)
Theorem normalize_features_affine :
  (∀ tempo num_sig_changes resolution ts_num ts_den : num,
     normalize_features [tempo; num_sig_changes; resolution; ts_num; ts_den] =
     (x0 ← rescale tempo 150 300;
      x1 ← rescale num_sig_changes 2 10;
      x2 ← rescale resolution 260 400;
      x3 ← rescale ts_num 3 8;
      x4 ← rescale ts_den 3 8;
      Ok [x0; x1; x2; x3; x4]))
  ∧ (∀ t n r a b : float,
       normalize_features (Float <$> [t; n; r; a; b]) =
       Ok (Float <$> [(t - 150) / 300; (n - 2) / 10; (r - 260) / 400;
                      (a - 3) / 8; (b - 3) / 8])%float)
  ∧ normalize_features (Int <$> [120; 0; 480; 4; 4]) =
    Ok (Float <$> [-0.1; -0.2; 0.55; 0.125; 0.125])%float
  ∧ normalize_features [Float 120; Int 0; Int 480; Int 4; Int 4] =
    Ok (Float <$> [-0.1; -0.2; 0.55; 0.125; 0.125])%float.
Proof.
  split; [|split; [|split]].
  - intros. reflexivity.
  - intros. reflexivity.
  - vm_compute. reflexivity.
  - vm_compute. reflexivity.
Qed.

Lemma truediv_is_float (x y r : num) : truediv x y = Ok r → ∃ f, r = Float f.
Proof.
  destruct x as [a|a], y as [b|b]; simpl.
  - destruct (int_truediv a b); simpl; [intros [= <-]; eauto | done].
  - destruct (int_to_float a); simpl; [|done].
    destruct (float_truediv _ b); simpl; [intros [= <-]; eauto | done].
  - destruct (int_to_float b); simpl; [|done].
    destruct (float_truediv a _); simpl; [intros [= <-]; eauto | done].
  - destruct (float_truediv a b); simpl; [intros [= <-]; eauto | done].
Qed.

(** A result of [normalize_features] is a list of exactly five floats. *)
Lemma normalize_features_length (features result : list num) :
  normalize_features features = Ok result →
  length result = 5%nat ∧ Forall (fun y => ∃ f, y = Float f) result.
Proof.
  unfold normalize_features. intros H.
  repeat match type of H with
  | (mbind _ ?m = _) =>
      let E := fresh "E" in destruct m eqn:E; simpl in H; [|discriminate]
  end.
  injection H as <-. split; [reflexivity|].
  repeat match goal with
  | E : (mbind _ ?m = Ok ?a) |- _ =>
      let E' := fresh "E" in destruct m eqn:E'; simpl in E; [|discriminate]
  end.
  repeat (constructor; [eapply truediv_is_float; eassumption|]).
  constructor.
Qed.

(** ** Properties of the feature extractor *)

(** A call fails under the filter ["error"] when it emits a warning or
    raises an exception. *)
Definition raises_or_warns {A : Type} (c : pretty_midi.call A) : Prop :=
  pretty_midi.warned c ≠ [] ∨ ∃ e, pretty_midi.outcome c = Raise e.

(** The list [get_features] passes to [normalize_features]. *)
Definition raw_features (file : pretty_midi.PrettyMIDI) (tempo : float) : list num :=
  [Float tempo;
   Int (Z.of_nat (length (pretty_midi.time_signature_changes file)));
   Int (pretty_midi.resolution file);
   Int (match pretty_midi.time_signature_changes file with
        | ts :: _ => pretty_midi.numerator ts
        | [] => 4
        end);
   Int (match pretty_midi.time_signature_changes file with
        | ts :: _ => pretty_midi.denominator ts
        | [] => 4
        end)].

Lemma simplefilter_error_fails {A : Type} (c : pretty_midi.call A) :
  raises_or_warns c ↔ ∃ e, simplefilter_error c = Raise e.
Proof.
  unfold raises_or_warns, simplefilter_error.
  destruct c as [[|w ws] o]; simpl.
  - split; [intros [?|?]; [done|assumption] | intros ?; by right].
  - split; [intros _; eauto | intros _; by left].
Qed.

Section Extraction.
Variable PrettyMIDI : string → pretty_midi.call pretty_midi.PrettyMIDI.

Lemma get_features_unfold (path : string) :
  get_features PrettyMIDI path =
  match
    file ← simplefilter_error (PrettyMIDI path);
    tempo ← simplefilter_error (pretty_midi.estimate_tempo file);
    normalize_features (raw_features file tempo)
  with
  | Ok features => Some features
  | Raise _ => None
  end.
Proof.
  unfold get_features, raw_features.
  destruct (simplefilter_error (PrettyMIDI path)) as [file|]; simpl; [|done].
  destruct (simplefilter_error (pretty_midi.estimate_tempo file)); simpl; [|done].
  by destruct (pretty_midi.time_signature_changes file).
Qed.

Lemma get_features_parse_fails (path : string) :
  raises_or_warns (PrettyMIDI path) → get_features PrettyMIDI path = None.
Proof.
  intros [e He]%simplefilter_error_fails.
  by rewrite get_features_unfold, He.
Qed.

(** C10: [get_features] returns on every path, with [None] or with a list
    of exactly five floats, and never raises: whatever is raised inside the
    [try] gives [None], be it by the parser (an exception or an escalated
    warning), by the tempo estimate on a file that parsed, or by the
    normalisation. *)
Theorem get_features_total (path : string) :
  (get_features PrettyMIDI path = None
   ∨ ∃ features, get_features PrettyMIDI path = Some features
       ∧ length features = 5%nat ∧ Forall (fun y => ∃ f, y = Float f) features)
  ∧ (∀ e, simplefilter_error (PrettyMIDI path) = Raise e →
       get_features PrettyMIDI path = None)
  ∧ (∀ file e,
       simplefilter_error (PrettyMIDI path) = Ok file →
       simplefilter_error (pretty_midi.estimate_tempo file) = Raise e →
       get_features PrettyMIDI path = None)
  ∧ (∀ file tempo e,
       simplefilter_error (PrettyMIDI path) = Ok file →
       simplefilter_error (pretty_midi.estimate_tempo file) = Ok tempo →
       normalize_features (raw_features file tempo) = Raise e →
       get_features PrettyMIDI path = None).
Proof.
  rewrite get_features_unfold. repeat split.
  - destruct (simplefilter_error (PrettyMIDI path)) as [file|]; simpl; [|by left].
    destruct (simplefilter_error (pretty_midi.estimate_tempo file)) as [tempo|];
      simpl; [|by left].
    destruct (normalize_features (raw_features file tempo)) as [v|] eqn:E; [|by left].
    right. exists v. split; [done|]. by apply normalize_features_length in E.
  - by intros e ->.
  - intros file e H1 H2. rewrite H1; simpl. by rewrite H2.
  - intros file tempo e H1 H2 H3. rewrite H1; simpl. rewrite H2; simpl. by rewrite H3.
Qed.

End Extraction.

(** ** Properties of the label loader *)

(** The lines of a text, each with its terminator. *)
Fixpoint splitlines (text : string) : list string :=
  match text with
  | EmptyString => []
  | String c r =>
      if Ascii.eqb c LF then String c EmptyString :: splitlines r
      else match splitlines r with
           | [] => [String c EmptyString]
           | l :: ls => String c l :: ls
           end
  end.

(** A line is a comment when its first character is [#]. *)
Definition is_comment (line : string) : bool :=
  match line with
  | String c _ => Ascii.eqb c "#"
  | EmptyString => false
  end.

(** The lines a label file gives records for. *)
Definition label_lines (text : string) : list string :=
  filter (fun line => is_comment line = false) (splitlines text).

(** The fields [get_genres] sees: those of the stripped line. *)
Definition stripped_fields (line : string) : list string := split TAB (strip line).

(** The line without its terminator, and its tab-separated fields. *)
Fixpoint chomp (line : string) : string :=
  match line with
  | EmptyString => EmptyString
  | String c EmptyString => if Ascii.eqb c LF then EmptyString else line
  | String c r => String c (chomp r)
  end.

Definition raw_fields (line : string) : list string := split TAB (chomp line).

(** The loop of [get_genres] over lines already split. *)
Fixpoint scan (lines : list string) (ids genres : list string) :
    result (list string * list string) :=
  match lines with
  | [] => Ok (ids, genres)
  | line :: rest =>
      if is_comment line then scan rest ids genres
      else match stripped_fields line with
           | x :: y :: _ => scan rest (ids ++ [x]) (genres ++ [y])
           | _ => Raise ValueError
           end
  end.

(** The lines still to handle when [line] was just read from [f]. *)
Definition pending (line f : string) : list string :=
  match line with
  | EmptyString => []
  | _ => line :: splitlines f
  end.

Lemma readline_empty (f : string) : (readline f).1 = EmptyString → f = EmptyString.
Proof.
  destruct f as [|c r]; simpl; [done|].
  destruct (Ascii.eqb c LF); simpl; [done|].
  by destruct (readline r).
Qed.

Lemma pending_readline (f : string) :
  pending (readline f).1 (readline f).2 = splitlines f.
Proof.
  induction f as [|c r IH]; simpl; [done|].
  destruct (Ascii.eqb c LF); simpl; [done|].
  pose proof (readline_empty r) as Hr.
  destruct (readline r) as [l r'] eqn:E; simpl in *.
  destruct l; simpl in *.
  - rewrite (Hr eq_refl) in *. simpl in E. by injection E as <-.
  - by rewrite <- IH.
Qed.

Lemma get_genres_loop_scan (n : nat) :
  ∀ line f ids genres,
    (String.length line + String.length f ≤ n)%nat →
    get_genres_loop line f ids genres = scan (pending line f) ids genres.
Proof.
  induction n as [|n IH]; intros line f ids genres Hn.
  - destruct line; [by simp get_genres_loop | simpl in Hn; lia].
  - destruct line as [|c l]; [by simp get_genres_loop|].
    simp get_genres_loop.
    assert (String.length (readline f).1 + String.length (readline f).2 ≤ n)%nat
      by (rewrite readline_length; simpl in Hn; lia).
    unfold pending; fold (pending (readline f).1 (readline f).2).
    simpl scan. unfold stripped_fields.
    rewrite <- pending_readline.
    destruct (Ascii.eqb c "#"); simpl.
    + by apply IH.
    + destruct (split TAB (strip (String c l))) as [|x [|y fields]]; try done.
      by apply IH.
Qed.

Lemma get_genres_scan (text : string) :
  get_genres text =
  ('(ids, genres) ← scan (splitlines text) [] []; Ok (genre_frame genres ids)).
Proof.
  unfold get_genres. rewrite <- pending_readline.
  destruct (readline text) as [line f] eqn:E; simpl.
  by rewrite (get_genres_loop_scan _ line f [] [] (le_n _)).
Qed.

(** The identifier and the genre [get_genres] takes from a line. *)
Definition first_two (line : string) : string * string :=
  match stripped_fields line with
  | x :: y :: _ => (x, y)
  | _ => (EmptyString, EmptyString)
  end.

Lemma scan_well_formed (lines : list string) :
  ∀ ids genres,
    Forall (fun line => 2 ≤ length (stripped_fields line))%nat
           (filter (fun line => is_comment line = false) lines) →
    scan lines ids genres =
    Ok (ids ++ ((fun line => (first_two line).1) <$>
                  filter (fun line => is_comment line = false) lines),
        genres ++ ((fun line => (first_two line).2) <$>
                     filter (fun line => is_comment line = false) lines)).
Proof.
  induction lines as [|line rest IH]; intros ids genres Hall; simpl.
  - by rewrite !app_nil_r.
  - rewrite filter_cons in *. destruct (is_comment line) eqn:Hc.
    + rewrite decide_False in * by done. by apply IH.
    + rewrite decide_True in * by done.
      apply Forall_cons in Hall as [Hlen Hall].
      unfold first_two. simpl.
      destruct (stripped_fields line) as [|x [|y fields]]; simpl in Hlen; try lia.
      rewrite IH by done. simpl. by rewrite <- !app_assoc.
Qed.

Lemma scan_malformed (lines : list string) (line : string) :
  ∀ ids genres,
    line ∈ lines → is_comment line = false → (length (stripped_fields line) < 2)%nat →
    scan lines ids genres = Raise ValueError.
Proof.
  induction lines as [|l rest IH]; intros ids genres Hin Hc Hlen.
  - by apply elem_of_nil in Hin.
  - simpl. destruct (decide (l = line)) as [->|Hne].
    + rewrite Hc. destruct (stripped_fields line) as [|x [|y fields]]; simpl in *; [done|done|lia].
    + apply elem_of_cons in Hin as [?|Hin]; [done|].
      destruct (is_comment l); [by apply IH|].
      destruct (stripped_fields l) as [|x [|y fields]]; try done. by apply IH.
Qed.

(** The number of occurrences of a character, which is what decides the
    number of fields. *)
Fixpoint occurrences (c : ascii) (s : string) : nat :=
  match s with
  | EmptyString => 0
  | String d r => (if Ascii.eqb d c then 1 else 0) + occurrences c r
  end.

Lemma split_length (sep : ascii) (s : string) :
  length (split sep s) = S (occurrences sep s).
Proof.
  induction s as [|c r IH]; simpl; [done|].
  destruct (Ascii.eqb c sep); simpl; [by rewrite IH|].
  destruct (split sep r); simpl in *; lia.
Qed.

Lemma occurrences_lstrip (c : ascii) (s : string) :
  (occurrences c (lstrip s) ≤ occurrences c s)%nat.
Proof.
  induction s as [|d r IH]; simpl; [done|].
  destruct (isspace d); simpl; lia.
Qed.

Lemma occurrences_rstrip (c : ascii) (s : string) :
  (occurrences c (rstrip s) ≤ occurrences c s)%nat.
Proof.
  induction s as [|d r IH]; simpl; [done|].
  destruct (rstrip r) as [|e r']; simpl in *.
  - destruct (isspace d); simpl; lia.
  - lia.
Qed.

Lemma occurrences_chomp (c : ascii) (s : string) :
  c ≠ LF → occurrences c (chomp s) = occurrences c s.
Proof.
  intros Hc. induction s as [|d r IH]; [done|].
  destruct r as [|e r].
  - simpl. destruct (Ascii.eqb_spec d LF) as [->|]; simpl; [|done].
    destruct (Ascii.eqb_spec LF c); [by subst|done].
  - change (chomp (String d (String e r))) with (String d (chomp (String e r))).
    change (occurrences c (String d ?s)) with
      ((if Ascii.eqb d c then 1 else 0) + occurrences c s)%nat.
    by rewrite IH.
Qed.

(** Stripping never adds a field. *)
Lemma stripped_fields_le_raw (line : string) :
  (length (stripped_fields line) ≤ length (raw_fields line))%nat.
Proof.
  unfold stripped_fields, raw_fields, strip. rewrite !split_length.
  rewrite occurrences_chomp by done.
  pose proof (occurrences_rstrip TAB (lstrip line)).
  pose proof (occurrences_lstrip TAB line). lia.
Qed.

(** C6, as the code has it: the fields are those of the line stripped of
    its leading and trailing whitespace.  When every line that is not a
    comment has at least two such fields, [get_genres] returns one record
    per such line, in the order of the lines and with no deduplication; the
    identifier is the first field, the genre the second, and further fields
    are ignored. *)
Theorem get_genres_records (text : string) :
  Forall (fun line => 2 ≤ length (stripped_fields line))%nat (label_lines text) →
  ∃ genre_df,
    get_genres text = Ok genre_df
    ∧ Forall2 (fun line row =>
                 ∃ ignored, stripped_fields line =
                            GenreDf.TrackID row :: GenreDf.Genre row :: ignored)
              (label_lines text) genre_df.
Proof.
  intros Hall. rewrite get_genres_scan.
  rewrite scan_well_formed by done. simpl.
  eexists; split; [reflexivity|]. fold (label_lines text).
  unfold genre_frame. rewrite zip_with_fmap_l, zip_with_fmap_r, zip_with_diag.
  apply Forall2_fmap_r, Forall_Forall2_diag.
  eapply Forall_impl; [exact Hall|]. intros line Hlen. simpl in *.
  unfold first_two.
  destruct (stripped_fields line) as [|x [|y fields]]; simpl in *; try lia.
  by exists fields.
Qed.

(** C7: when some line that is not a comment has fewer than two
    tab-separated fields, [get_genres] raises [ValueError] and returns no
    label at all; [save_matching_csv] lets the exception through and writes
    nothing. *)
Theorem get_genres_malformed (text line : string) :
  line ∈ label_lines text →
  (length (raw_fields line) < 2)%nat →
  get_genres text = Raise ValueError
  ∧ ∀ PrettyMIDI midi_folder fs output_path disk,
      save_matching_csv PrettyMIDI text midi_folder fs output_path disk
      = (Raise ValueError, disk).
Proof.
  intros [Hc Hin]%list_elem_of_filter Hlen.
  assert (get_genres text = Raise ValueError) as Hraise.
  { rewrite get_genres_scan.
    rewrite (scan_malformed _ line); [done|done|done|].
    pose proof (stripped_fields_le_raw line). lia. }
  split; [done|]. intros.
  unfold save_matching_csv, processed_frame. by rewrite Hraise.
Qed.

(** ** Properties of the file index *)

(** Induction on a tree, with the hypothesis on every sub-directory. *)
Lemma tree_ind_dirs (P : os.tree → Prop) :
  (∀ files dirs, Forall (fun nd => P nd.2) dirs → P (os.Dir files dirs)) →
  ∀ t, P t.
Proof.
  intros Hdir. fix IH 1. intros [files dirs]. apply Hdir.
  induction dirs as [|[name d] dirs IHdirs]; constructor; [apply IH | apply IHdirs].
Qed.

(** The rows one triple of [os.walk] contributes. *)
Definition rows_of_entry (entry : string * list string * list string) : list MidiDf.row :=
  let '(dir_name, _, file_list) := entry in
  (fun file => MidiDf.Row (last_field (split SLASH dir_name)) (dir_name +:+ "/" +:+ file))
    <$> file_list.

Lemma all_midi_inner (track_id : string) (file_path_list : list string) :
  ∀ track_ids file_paths,
    length track_ids = length file_paths →
    let s := foldl (fun '(track_ids, file_paths) file_path =>
                      (track_ids ++ [track_id], file_paths ++ [file_path]))
                   (track_ids, file_paths) file_path_list in
    length s.1 = length s.2
    ∧ zip_with MidiDf.Row s.1 s.2 =
      zip_with MidiDf.Row track_ids file_paths ++ (MidiDf.Row track_id <$> file_path_list).
Proof.
  induction file_path_list as [|p ps IH]; intros track_ids file_paths Hlen; simpl.
  - by rewrite app_nil_r.
  - destruct (IH (track_ids ++ [track_id]) (file_paths ++ [p])) as [Hl Hz].
    { rewrite !length_app. simpl. lia. }
    split; [exact Hl|]. rewrite Hz.
    rewrite zip_with_app by done. simpl. by rewrite <- app_assoc.
Qed.

Lemma all_midi_outer (entries : list (string * list string * list string)) :
  ∀ track_ids file_paths,
    length track_ids = length file_paths →
    let s := foldl (fun '(track_ids, file_paths) '(dir_name, _, file_list) =>
                      let track_id := last_field (split SLASH dir_name) in
                      let file_path_list :=
                        (fun file => join "/" [dir_name; file]) <$> file_list in
                      foldl (fun '(track_ids, file_paths) file_path =>
                               (track_ids ++ [track_id], file_paths ++ [file_path]))
                            (track_ids, file_paths) file_path_list)
                   (track_ids, file_paths) entries in
    length s.1 = length s.2
    ∧ zip_with MidiDf.Row s.1 s.2 =
      zip_with MidiDf.Row track_ids file_paths ++ flat_map rows_of_entry entries.
Proof.
  induction entries as [|[[dir_name dirs] file_list] entries IH];
    intros track_ids file_paths Hlen; simpl.
  - by rewrite app_nil_r.
  - pose proof (all_midi_inner (last_field (split SLASH dir_name))
                  ((fun file => join "/" [dir_name; file]) <$> file_list)
                  track_ids file_paths Hlen) as [Hl Hz].
    destruct (foldl _ (track_ids, file_paths) _) as [t p] eqn:E in Hl, Hz |- *.
    simpl in Hl, Hz.
    destruct (IH t p Hl) as [Hl' Hz']. split; [exact Hl'|].
    etrans; [exact Hz'|].
    rewrite Hz, <- app_assoc. do 2 f_equal.
    by rewrite <- list_fmap_compose.
Qed.

Lemma all_midi_df_walk (midi_folder : string) (fs : os.tree) :
  all_midi_df midi_folder fs = flat_map rows_of_entry (os.walk midi_folder fs).
Proof.
  unfold all_midi_df, all_midi_lists.
  pose proof (all_midi_outer (os.walk midi_folder fs) [] [] eq_refl) as [_ Hz].
  destruct (foldl _ _ _) as [t p]. exact Hz.
Qed.

Lemma split_nonempty (sep : ascii) (s : string) : split sep s ≠ [].
Proof.
  intros H. pose proof (split_length sep s) as Hl. by rewrite H in Hl.
Qed.

Lemma append_nil (b : string) : EmptyString +:+ b = b.
Proof. reflexivity. Qed.

Lemma append_cons (c : ascii) (a b : string) : String c a +:+ b = String c (a +:+ b).
Proof. reflexivity. Qed.

Lemma split_app (sep : ascii) (a b : string) :
  split sep (a +:+ String sep b) = split sep a ++ split sep b.
Proof.
  induction a as [|c a IH]; rewrite ?append_nil, ?append_cons; simpl.
  - by rewrite Ascii.eqb_refl.
  - destruct (Ascii.eqb c sep); [by rewrite IH|].
    rewrite IH. pose proof (split_nonempty sep a).
    by destruct (split sep a).
Qed.

Lemma split_without (sep : ascii) (s : string) :
  occurrences sep s = 0%nat → split sep s = [s].
Proof.
  induction s as [|c r IH]; simpl; [done|].
  destruct (Ascii.eqb c sep); [done|]. intros H. by rewrite IH.
Qed.

Lemma last_field_app (l1 l2 : list string) :
  l2 ≠ [] → last_field (l1 ++ l2) = last_field l2.
Proof.
  intros H. unfold last_field. induction l1 as [|x l1 IH]; [done|].
  simpl. destruct (l1 ++ l2) eqn:E; [|done].
  by apply app_eq_nil in E as [_ ?].
Qed.

Lemma endswith_app (c : ascii) (s : string) :
  endswith c s = true → ∃ s', s = s' +:+ String c EmptyString.
Proof.
  induction s as [|d r IH]; [done|]. simpl.
  destruct r as [|e r].
  - intros H%Ascii.eqb_eq. subst. by exists EmptyString.
  - intros H. destruct (IH H) as [s' Hs']. exists (String d s'). by rewrite Hs'.
Qed.

Lemma string_app_assoc (a b c : string) : (a +:+ b) +:+ c = a +:+ (b +:+ c).
Proof. induction a as [|x a IH]; [done|]. by rewrite !append_cons, IH. Qed.

(** The last component of the path of a sub-directory is its name. *)
Lemma last_field_path_join (top name : string) :
  occurrences SLASH name = 0%nat →
  last_field (split SLASH (os.path_join top name)) = name.
Proof.
  intros Hname. unfold os.path_join.
  assert (startswith SLASH name = false) as ->.
  { destruct name as [|c r]; [done|]. simpl in *.
    by destruct (Ascii.eqb c SLASH). }
  destruct (String.eqb_spec top "") as [->|Hne]; simpl.
  - by rewrite split_without.
  - destruct (endswith SLASH top) eqn:E.
    + apply endswith_app in E as [top' ->].
      rewrite string_app_assoc, append_cons, append_nil.
      rewrite split_app, last_field_app by apply split_nonempty.
      by rewrite split_without.
    + change ("/" +:+ name)%string with (String SLASH name).
      rewrite split_app, last_field_app by apply split_nonempty.
      by rewrite split_without.
Qed.

(** No name of a directory holds a [/]. *)
Fixpoint well_named (t : os.tree) : bool :=
  match t with
  | os.Dir _ dirs =>
      forallb (fun nd => Nat.eqb (occurrences SLASH nd.1) 0 && well_named nd.2) dirs
  end.

(** The index by the names of the directories: the files of a directory
    get [identifier], the files below the sub-directory [name] get [name]. *)
Fixpoint file_index (identifier path : string) (t : os.tree) : list MidiDf.row :=
  match t with
  | os.Dir files dirs =>
      ((fun file => MidiDf.Row identifier (path +:+ "/" +:+ file)) <$> files)
      ++ flat_map (fun nd => file_index nd.1 (os.path_join path nd.1) nd.2) dirs
  end.

(** The name a path gives to the directory it denotes: its last component
    that is not empty, when there is one and it is a name.  The components
    [.] and [..] are no names: what the directory is called is then not
    written in the path. *)
Definition directory_name (path : string) : option string :=
  let name := last_field (filter (fun part => part ≠ EmptyString) (split SLASH path)) in
  if decide (name = EmptyString ∨ name = "."%string ∨ name = ".."%string)
  then None else Some name.

Lemma walk_file_index (t : os.tree) :
  ∀ top, well_named t = true →
    flat_map rows_of_entry (os.walk top t) =
    file_index (last_field (split SLASH top)) top t.
Proof.
  induction t as [files dirs IH] using tree_ind_dirs. intros top Hwf.
  simpl. f_equal. simpl in Hwf.
  induction dirs as [|[name d] dirs IHdirs]; [done|].
  simpl in *. apply andb_prop in Hwf as [[Hname Hd]%andb_prop Hdirs].
  apply Forall_cons in IH as [IHd IH]. simpl in IHd.
  rewrite flat_map_app, IHd by done.
  rewrite last_field_path_join by by apply Nat.eqb_eq.
  f_equal. by apply IHdirs.
Qed.

Lemma last_field_cons (x : string) (l : list string) :
  l ≠ [] → last_field (x :: l) = last_field l.
Proof. intros H. by apply (last_field_app [x]). Qed.

Lemma last_field_empty (sep : ascii) (s : string) :
  last_field (split sep s) = EmptyString → s = EmptyString ∨ endswith sep s = true.
Proof.
  induction s as [|c r IH]; [by left|].
  simpl split. destruct (Ascii.eqb c sep) eqn:Ec.
  - rewrite last_field_cons by apply split_nonempty.
    intros H. right. destruct (IH H) as [->|He]; [exact Ec|].
    simpl. by destruct r.
  - pose proof (split_nonempty sep r) as Hne.
    destruct (split sep r) as [|f [|g fs]] eqn:Es; [done|done|].
    rewrite last_field_cons by done.
    intros H. right. destruct (IH H) as [->|He]; [done|].
    simpl. by destruct r.
Qed.

Lemma last_field_filter (l : list string) :
  last_field l ≠ EmptyString →
  last_field (filter (fun part => part ≠ EmptyString) l) = last_field l.
Proof.
  destruct l as [|x l _] using rev_ind; [done|].
  rewrite last_field_app by done. simpl. intros Hx.
  rewrite filter_app, filter_cons, decide_True by done.
  by rewrite last_field_app.
Qed.

(** When a path names its directory and does not end with [/], the name
    is what follows the last [/]. *)
Lemma last_field_directory_name (path name : string) :
  directory_name path = Some name → endswith SLASH path = false →
  last_field (split SLASH path) = name.
Proof.
  unfold directory_name. intros Hname Hend.
  destruct (decide _) as [|Hnot]; [done|]. injection Hname as <-.
  rewrite last_field_filter; [done|].
  intros [->|?]%last_field_empty; [|congruence].
  apply Hnot. by left.
Qed.

Lemma last_field_trailing (sep : ascii) (s : string) :
  endswith sep s = true → last_field (split sep s) = EmptyString.
Proof.
  intros [s' ->]%endswith_app.
  by rewrite split_app, last_field_app by apply split_nonempty.
Qed.

(** C8, as the code has it: one record per file whatever its extension,
    with the path of the directory, a [/] and the file name as its path.
    The identifier of a file below the root is the name of the directory
    that holds it; the identifier of a file directly in the root is what
    follows the last [/] of [midi_folder] as it was given.  This is the
    name of the root when [midi_folder] ends with that name: it does not
    end with [/], and its last component is neither [.] nor [..].  It is
    the empty string when [midi_folder] ends with [/]. *)
Theorem all_midi_df_file_index (midi_folder : string) (fs : os.tree) :
  well_named fs = true →
  all_midi_df midi_folder fs =
    file_index (last_field (split SLASH midi_folder)) midi_folder fs
  ∧ (∀ name, directory_name midi_folder = Some name →
             endswith SLASH midi_folder = false →
             all_midi_df midi_folder fs = file_index name midi_folder fs)
  ∧ (endswith SLASH midi_folder = true →
     all_midi_df midi_folder fs = file_index "" midi_folder fs).
Proof.
  intros Hwf.
  assert (all_midi_df midi_folder fs =
          file_index (last_field (split SLASH midi_folder)) midi_folder fs) as Heq.
  { rewrite all_midi_df_walk. by apply walk_file_index. }
  split; [exact Heq|]. split.
  - intros name Hname Hend.
    by rewrite Heq, (last_field_directory_name midi_folder name).
  - intros Hend. by rewrite Heq, last_field_trailing.
Qed.

(** ** Properties of the matcher *)

#[global] Instance GenreDf_row_eq_dec : EqDecision GenreDf.row.
Proof. solve_decision. Defined.
#[global] Instance MidiDf_row_eq_dec : EqDecision MidiDf.row.
Proof. solve_decision. Defined.
#[global] Instance MergedDf_row_eq_dec : EqDecision MergedDf.row.
Proof. solve_decision. Defined.
#[global] Instance MatchedDf_row_eq_dec : EqDecision MatchedDf.row.
Proof. solve_decision. Defined.

(** The number of rows of a frame equal to [x]. *)
Definition count {A : Type} `{EqDecision A} (x : A) (l : list A) : nat :=
  length (filter (fun y => y = x) l).

Lemma count_app {A : Type} `{EqDecision A} (x : A) (l1 l2 : list A) :
  count x (l1 ++ l2) = (count x l1 + count x l2)%nat.
Proof. unfold count. by rewrite filter_app, length_app. Qed.

Lemma count_nil {A : Type} `{EqDecision A} (x : A) : count x [] = 0%nat.
Proof. reflexivity. Qed.

Lemma count_cons {A : Type} `{EqDecision A} (x y : A) (l : list A) :
  count x (y :: l) = ((if decide (y = x) then 1 else 0) + count x l)%nat.
Proof. unfold count. rewrite filter_cons. by destruct (decide (y = x)). Qed.

Lemma count_pos {A : Type} `{EqDecision A} (x : A) (l : list A) :
  (0 < count x l)%nat ↔ x ∈ l.
Proof.
  induction l as [|y l IH]; [rewrite elem_of_nil; unfold count; simpl; lia|].
  rewrite count_cons, elem_of_cons. destruct (decide (y = x)); [|rewrite <- IH].
  - split; [by left|lia].
  - split; [by right|intros [?|?]; [congruence|lia]].
Qed.

(** Equalities between rows, turned into equalities between their cells. *)
Ltac inject_rows :=
  repeat match goal with
  | H : MidiDf.Row _ _ = MidiDf.Row _ _ |- _ => injection H as ? ?
  | H : GenreDf.Row _ _ = GenreDf.Row _ _ |- _ => injection H as ? ?
  | H : MatchedDf.Row _ _ = MatchedDf.Row _ _ |- _ => injection H as ? ?
  | H : MergedDf.Row _ _ _ = MergedDf.Row _ _ _ |- _ => injection H as ? ? ?
  end; subst.

(** The rows the join gives for one row [m] of the left frame. *)
Definition matches_of (m : MidiDf.row) (right : list GenreDf.row) : list MergedDf.row :=
  (fun '(m, g) => MergedDf.Row (MidiDf.TrackID m) (MidiDf.Path m) (GenreDf.Genre g))
    <$> (r ← right; if decide (MidiDf.TrackID m = GenreDf.TrackID r) then [(m, r)] else []).

Lemma merge_on_TrackID_cons (m : MidiDf.row) (left : list MidiDf.row)
    (right : list GenreDf.row) :
  merge_on_TrackID (m :: left) right = matches_of m right ++ merge_on_TrackID left right.
Proof. unfold merge_on_TrackID, pd.merge_inner. by rewrite bind_cons, fmap_app. Qed.

Lemma count_matches_of (m : MidiDf.row) (right : list GenreDf.row)
    (track_id path genre : string) :
  count (MergedDf.Row track_id path genre) (matches_of m right) =
  if decide (m = MidiDf.Row track_id path)
  then count (GenreDf.Row genre track_id) right else 0%nat.
Proof.
  unfold matches_of. induction right as [|r right IH].
  - simpl. by destruct (decide _).
  - rewrite bind_cons, fmap_app, count_app, IH, count_cons. clear IH.
    destruct m as [mt mp], r as [rg rt]; simpl.
    destruct (decide (mt = rt)) as [->|Hne]; simpl.
    + rewrite count_cons, count_nil.
      repeat case_decide; inject_rows; try lia; exfalso; first [done | congruence].
    + rewrite ?count_nil.
      repeat case_decide; inject_rows; try lia; exfalso; first [done | congruence].
Qed.

(** The multiplicity of a row of the join is the product of the
    multiplicities of its two halves. *)
Lemma merge_on_TrackID_count (left : list MidiDf.row) (right : list GenreDf.row)
    (track_id path genre : string) :
  count (MergedDf.Row track_id path genre) (merge_on_TrackID left right) =
  (count (MidiDf.Row track_id path) left * count (GenreDf.Row genre track_id) right)%nat.
Proof.
  induction left as [|m left IH]; [done|].
  rewrite merge_on_TrackID_cons, count_app, IH, count_matches_of, count_cons.
  destruct (decide (m = MidiDf.Row track_id path)); lia.
Qed.

(** C3: the matcher is the inner join on [TrackID].  A row
    [(track_id, path, genre)] occurs in the join as many times as there are
    pairs of a file row [(track_id, path)] and a label row
    [(genre, track_id)], so that every matching pair gives exactly one
    row, duplicates on either side give the full cross product, and an
    identifier missing on one side gives no row; [get_matched_midi] returns
    the join without its [TrackID] column. *)
Theorem get_matched_midi_inner_join (midi_folder : string) (fs : os.tree)
    (genre_df : list GenreDf.row) :
  let files := all_midi_df midi_folder fs in
  let df := merge_on_TrackID files genre_df in
  (∀ track_id path genre,
     count (MergedDf.Row track_id path genre) df =
     (count (MidiDf.Row track_id path) files
      * count (GenreDf.Row genre track_id) genre_df)%nat)
  ∧ (∀ r, r ∈ df →
       MergedDf.TrackID r ∈ MidiDf.TrackID <$> files
       ∧ MergedDf.TrackID r ∈ GenreDf.TrackID <$> genre_df)
  ∧ get_matched_midi midi_folder fs genre_df =
    (fun r => MatchedDf.Row (MergedDf.Path r) (MergedDf.Genre r)) <$> df
  ∧ length (get_matched_midi midi_folder fs genre_df) = length df.
Proof.
  intros files df. split; [|split; [|split]].
  - intros. apply merge_on_TrackID_count.
  - intros [t p g] Hin%count_pos. simpl.
    unfold df in Hin. rewrite merge_on_TrackID_count in Hin.
    assert (0 < count (MidiDf.Row t p) files)%nat as Hf%count_pos by lia.
    assert (0 < count (GenreDf.Row g t) genre_df)%nat as Hg%count_pos by lia.
    split.
    + by apply (list_elem_of_fmap_2 MidiDf.TrackID) in Hf.
    + by apply (list_elem_of_fmap_2 GenreDf.TrackID) in Hg.
  - reflexivity.
  - unfold get_matched_midi, drop_TrackID. by rewrite length_fmap.
Qed.

(** ** Properties of the genre encoder *)

Section Unique.
Context {A : Type} `{EqDecision A}.
Implicit Types (seen values : list A).

Lemma elem_of_unique_from seen values (x : A) :
  x ∈ pd.unique_from seen values ↔ x ∈ values ∧ x ∉ seen.
Proof.
  revert seen. induction values as [|y values IH]; intros seen; simpl.
  - rewrite elem_of_nil. tauto.
  - destruct (decide (y ∈ seen)) as [Hy|Hy].
    + rewrite IH, elem_of_cons. split; [tauto|].
      intros [[->|?] ?]; [done|tauto].
    + rewrite !elem_of_cons, IH, elem_of_cons. split.
      * intros [->|[? ?]]; [tauto|]. split; [tauto|]. tauto.
      * intros [[->|?] ?]; [by left|].
        destruct (decide (x = y)) as [->|]; [by left|right]. tauto.
Qed.

Lemma NoDup_unique_from seen values : NoDup (pd.unique_from seen values).
Proof.
  revert seen. induction values as [|y values IH]; intros seen; simpl.
  - constructor.
  - destruct (decide (y ∈ seen)); [apply IH|].
    constructor; [|apply IH].
    rewrite elem_of_unique_from, elem_of_cons. tauto.
Qed.

Lemma unique_from_ext seen seen' values :
  (∀ x, x ∈ seen ↔ x ∈ seen') →
  pd.unique_from seen values = pd.unique_from seen' values.
Proof.
  revert seen seen'. induction values as [|y values IH]; intros seen seen' Hext; simpl.
  - done.
  - destruct (decide (y ∈ seen)) as [Hy|Hy], (decide (y ∈ seen')) as [Hy'|Hy'].
    + by apply IH.
    + by apply Hext in Hy.
    + by apply Hext in Hy'.
    + f_equal. apply IH. intros x. rewrite !elem_of_cons, Hext. tauto.
Qed.

Lemma unique_from_app seen values1 values2 :
  pd.unique_from seen (values1 ++ values2) =
  pd.unique_from seen values1 ++ pd.unique_from (values1 ++ seen) values2.
Proof.
  revert seen. induction values1 as [|y values1 IH]; intros seen; simpl; [done|].
  destruct (decide (y ∈ seen)) as [Hy|Hy].
  - rewrite IH. f_equal. apply unique_from_ext. intros x.
    rewrite elem_of_cons, !elem_of_app. split; [tauto|].
    intros [->|?]; tauto.
  - rewrite IH. simpl. do 2 f_equal. apply unique_from_ext. intros x.
    rewrite elem_of_cons, !elem_of_app, elem_of_cons. tauto.
Qed.

Lemma elem_of_unique values (x : A) : x ∈ pd.unique values ↔ x ∈ values.
Proof.
  unfold pd.unique. rewrite elem_of_unique_from, elem_of_nil. tauto.
Qed.

Lemma NoDup_unique values : NoDup (pd.unique values).
Proof. apply NoDup_unique_from. Qed.

(** The position of a value among the distinct values is the number of
    distinct values met before its first occurrence. *)
Lemma unique_first_occurrence before (x : A) after :
  x ∉ before →
  pd.unique (before ++ x :: after) !! length (pd.unique before) = Some x.
Proof.
  intros Hx. unfold pd.unique. rewrite unique_from_app. simpl.
  rewrite decide_False by (rewrite app_nil_r; exact Hx).
  by rewrite list_lookup_middle.
Qed.

End Unique.

Lemma enumerate_dict_snoc (genre_list : list string) (genre : string) :
  enumerate_dict (genre_list ++ [genre]) =
  <[genre := Z.of_nat (length genre_list)]> (enumerate_dict genre_list).
Proof.
  unfold enumerate_dict. rewrite length_app. simpl.
  rewrite seq_app. simpl.
  rewrite zip_with_app by (by rewrite length_seq).
  by rewrite foldl_app.
Qed.

Lemma enumerate_dict_lookup (genre_list : list string) (genre : string) (i : Z) :
  NoDup genre_list →
  enumerate_dict genre_list !! genre = Some i ↔
  ∃ n, i = Z.of_nat n ∧ genre_list !! n = Some genre.
Proof.
  induction genre_list as [|g genre_list IH] using rev_ind; intros Hnd.
  - unfold enumerate_dict. simpl. rewrite lookup_empty.
    split; [done|]. by intros (n & _ & ?).
  - apply NoDup_app in Hnd as (Hnd & Hdisj & _).
    rewrite enumerate_dict_snoc.
    destruct (decide (g = genre)) as [->|Hne].
    + rewrite lookup_insert_eq. split.
      * intros [= <-]. exists (length genre_list). split; [done|].
        by rewrite list_lookup_middle.
      * intros (n & -> & Hn).
        destruct (decide (n < length genre_list)%nat) as [Hlt|Hge].
        -- rewrite lookup_app_l in Hn by done.
           apply list_elem_of_lookup_2 in Hn. exfalso.
           apply (Hdisj genre Hn). by left.
        -- apply lookup_lt_Some in Hn as Hn'. rewrite length_app in Hn'. simpl in Hn'.
           do 2 f_equal. lia.
    + rewrite lookup_insert_ne by done. rewrite IH by done.
      split; intros (n & -> & Hn); exists n; (split; [done|]).
      * rewrite lookup_app_l; [done|]. by eapply lookup_lt_Some.
      * destruct (decide (n < length genre_list)%nat) as [Hlt|Hge].
        -- by rewrite lookup_app_l in Hn.
        -- rewrite lookup_app_r in Hn by lia.
           apply list_lookup_singleton_Some in Hn as [_ ?]. done.
Qed.

(** The [i]-th vector of the canonical basis, as a row of integers. *)
Definition basis (n i : nat) : list Z :=
  (fun j => if Nat.eqb i j then 1 else 0) <$> seq 0 n.

Lemma basis_lookup (n i j : nat) :
  (j < n)%nat → basis n i !! j = Some (if decide (j = i) then 1 else 0).
Proof.
  intros Hj. unfold basis. rewrite list_lookup_fmap, lookup_seq_lt by done. simpl.
  destruct (Nat.eqb_spec i j), (decide (j = i)); congruence.
Qed.

Lemma eye_lookup (n i : nat) :
  (i < n)%nat →
  np.eye n !! i = Some ((fun j => if Nat.eqb i j then 1%float else 0%float) <$> seq 0 n).
Proof.
  intros Hi. unfold np.eye. by rewrite list_lookup_fmap, lookup_seq_lt.
Qed.

Lemma eye_length (n : nat) : length (np.eye n) = n.
Proof. unfold np.eye. by rewrite length_fmap, length_seq. Qed.

(** [one_hot] on one label within range. *)
Lemma one_hot_singleton (num_classes i : nat) :
  (i < num_classes)%nat →
  one_hot [Z.of_nat i] num_classes = Ok [basis num_classes i].
Proof.
  intros Hi. unfold one_hot, np.take. simpl. rewrite eye_length.
  assert ((0 <=? Z.of_nat i) && (Z.of_nat i <? Z.of_nat num_classes) = true) as ->
    by (apply andb_true_intro; split; [apply Z.leb_le|apply Z.ltb_lt]; lia).
  rewrite Nat2Z.id. unfold getitem. rewrite eye_lookup by done. simpl.
  do 2 f_equal. unfold basis. rewrite <- list_fmap_compose.
  apply list_fmap_ext. intros _ j _. simpl. by destruct (Nat.eqb i j).
Qed.

(** The dictionary of the distinct genres of a list of rows is a bijection
    between these genres and the indices below [num_classes], in the order
    of first occurrence: the index of a genre is the number of distinct
    genres met before it.  For a genre of the dictionary, [one_hot] gives a
    vector of length [num_classes] with 1 at the index of the genre and 0
    at every other position. *)
Lemma enumerate_unique_one_hot (matched_df : list MatchedDf.row) :
  let genres := MatchedDf.Genre <$> matched_df in
  let genre_list := pd.unique genres in
  let genre_dict := enumerate_dict genre_list in
  let num_classes := length genre_list in
  (∀ genre, genre ∈ genres ↔ is_Some (genre_dict !! genre))
  ∧ (∀ genre i, genre_dict !! genre = Some i → 0 ≤ i < Z.of_nat num_classes)
  ∧ (∀ genre1 genre2 i,
       genre_dict !! genre1 = Some i → genre_dict !! genre2 = Some i → genre1 = genre2)
  ∧ (∀ n, (n < num_classes)%nat → ∃ genre, genre_dict !! genre = Some (Z.of_nat n))
  ∧ (∀ before genre after,
       genres = before ++ genre :: after → genre ∉ before →
       genre_dict !! genre = Some (Z.of_nat (length (pd.unique before))))
  ∧ (∀ genre i,
       genre_dict !! genre = Some i →
       ∃ encoded,
         one_hot [i] num_classes = Ok [encoded]
         ∧ length encoded = num_classes
         ∧ ∀ j, (j < num_classes)%nat →
                encoded !! j = Some (if decide (Z.of_nat j = i) then 1 else 0)).
Proof.
  intros genres genre_list genre_dict num_classes.
  pose proof (NoDup_unique genres) as Hnd. fold genre_list in Hnd.
  assert (∀ genre i, genre_dict !! genre = Some i ↔
                     ∃ n, i = Z.of_nat n ∧ genre_list !! n = Some genre) as Hlookup
    by (intros; by apply enumerate_dict_lookup).
  repeat split.
  - intros Hin. apply (proj2 (elem_of_unique _ _)) in Hin. fold genre_list in Hin.
    apply list_elem_of_lookup in Hin as [n Hn].
    exists (Z.of_nat n). apply Hlookup. eauto.
  - intros [i (n & _ & Hn)%Hlookup].
    apply list_elem_of_lookup_2 in Hn.
    exact (proj1 (elem_of_unique _ _) Hn).
  - apply Hlookup in H as (n & -> & Hn). lia.
  - apply Hlookup in H as (n & -> & Hn). apply lookup_lt_Some in Hn.
    unfold num_classes. lia.
  - intros genre1 genre2 i (n1 & -> & H1)%Hlookup (n2 & Heq & H2)%Hlookup.
    apply Nat2Z.inj in Heq as ->. congruence.
  - intros n Hn. apply lookup_lt_is_Some_2 in Hn as [genre Hg].
    exists genre. apply Hlookup. eauto.
  - intros before genre after Heq Hnot. apply Hlookup.
    exists (length (pd.unique before)). split; [done|].
    unfold genre_list. rewrite Heq. by apply unique_first_occurrence.
  - intros genre i (n & -> & Hn)%Hlookup.
    apply lookup_lt_Some in Hn. fold num_classes in Hn.
    exists (basis num_classes n). rewrite one_hot_singleton by done.
    split; [done|]. split.
    + unfold basis. by rewrite length_fmap, length_seq.
    + intros j Hj. rewrite basis_lookup by done.
      destruct (decide (j = n)), (decide (Z.of_nat j = Z.of_nat n)); try done; lia.
Qed.

(** ** Properties of the row processor and of the assembler *)

Lemma mapM_Ok_fmap {A B : Type} (f : A → result B) (g : A → B) (l : list A) :
  (∀ x, x ∈ l → f x = Ok (g x)) → mapM f l = Ok (g <$> l).
Proof.
  induction l as [|x l IH]; intros Hf; simpl; [done|].
  rewrite (Hf x) by by left. simpl.
  rewrite IH by (intros y Hy; apply Hf; by right). done.
Qed.

(** A processed row has features. *)
Definition present (r : ProcessedDf.row) : Prop := is_Some (ProcessedDf.Features r).

#[global] Instance present_dec (r : ProcessedDf.row) : Decision (present r).
Proof. unfold present. apply _. Defined.

Lemma dropna_Features_nonempty (data : list ProcessedDf.row) :
  data ≠ [] →
  ProcessedDf.dropna ["Features"%string] (ProcessedDf.DataFrame data) =
  Ok {| ProcessedDf.columns := ProcessedDf.columns (ProcessedDf.DataFrame data);
        ProcessedDf.rows := filter present data |}.
Proof.
  intros Hne. unfold ProcessedDf.dropna.
  assert ("Features"%string ∈ ProcessedDf.columns (ProcessedDf.DataFrame data)) as Hcol.
  { simpl. apply elem_of_unique. destruct data as [|r data]; [done|].
    rewrite bind_cons, elem_of_app. left. unfold ProcessedDf.keys.
    rewrite !elem_of_cons. tauto. }
  rewrite filter_cons, decide_False by (intros Hn; by apply Hn).
  rewrite filter_nil. do 2 f_equal. simpl.
  apply list_filter_iff. intros r. unfold present, ProcessedDf.isna. simpl.
  destruct (ProcessedDf.Features r) as [v|]; simpl.
  - split; [eauto|done].
  - split; [done|by intros [? ?]].
Qed.

Lemma dropna_Features_empty :
  ProcessedDf.columns (ProcessedDf.DataFrame []) = []
  ∧ ProcessedDf.dropna ["Features"%string] (ProcessedDf.DataFrame []) =
    Raise (KeyError ["Features"%string]).
Proof. split; reflexivity. Qed.

Section Rows.
Variable PrettyMIDI : string → pretty_midi.call pretty_midi.PrettyMIDI.

(** The record of a matched row: its path, its genre, the basis vector at
    the index of its genre and the features of its file. *)
Definition expected_row (genre_dict : gmap string Z) (num_classes : nat)
    (row : MatchedDf.row) : ProcessedDf.row :=
  {| ProcessedDf.Path := MatchedDf.Path row;
     ProcessedDf.Genre := MatchedDf.Genre row;
     ProcessedDf.OneHotGenre :=
       match genre_dict !! MatchedDf.Genre row with
       | Some i => basis num_classes (Z.to_nat i)
       | None => []
       end;
     ProcessedDf.Features := get_features PrettyMIDI (MatchedDf.Path row) |}.

Lemma process_row_expected (row : MatchedDf.row) (genre_dict : gmap string Z)
    (num_classes i : nat) :
  genre_dict !! MatchedDf.Genre row = Some (Z.of_nat i) → (i < num_classes)%nat →
  process_row PrettyMIDI row genre_dict num_classes =
  Ok (expected_row genre_dict num_classes row).
Proof.
  intros Hg Hi. unfold process_row, expected_row, dict_getitem. rewrite Hg. simpl.
  rewrite one_hot_singleton by done. simpl. by rewrite Nat2Z.id.
Qed.

(** Every genre of the matched rows has an index below [num_classes]. *)
Lemma genre_dict_complete (matched_df : list MatchedDf.row) (row : MatchedDf.row) :
  row ∈ matched_df →
  ∃ i, (i < length (pd.unique (MatchedDf.Genre <$> matched_df)))%nat
       ∧ enumerate_dict (pd.unique (MatchedDf.Genre <$> matched_df))
           !! MatchedDf.Genre row = Some (Z.of_nat i).
Proof.
  intros Hin. apply (list_elem_of_fmap_2 MatchedDf.Genre) in Hin.
  apply (proj2 (elem_of_unique _ _)) in Hin.
  apply list_elem_of_lookup in Hin as [i Hi]. exists i. split.
  - by eapply lookup_lt_Some.
  - apply enumerate_dict_lookup; [apply NoDup_unique|]. eauto.
Qed.

(** What [save_matching_csv] does once the labels are loaded. *)
Lemma save_matching_csv_loaded (genre_text midi_folder : string) (fs : os.tree)
    (output_path : string) (disk : gmap string (list ProcessedDf.row))
    (genre_df : list GenreDf.row) :
  get_genres genre_text = Ok genre_df →
  let matched_df := get_matched_midi midi_folder fs genre_df in
  let genre_list := pd.unique (MatchedDf.Genre <$> matched_df) in
  let processed_data :=
    expected_row (enumerate_dict genre_list) (length genre_list) <$> matched_df in
  save_matching_csv PrettyMIDI genre_text midi_folder fs output_path disk =
  match ProcessedDf.dropna ["Features"%string] (ProcessedDf.DataFrame processed_data) with
  | Ok processed_df =>
      (Ok tt, <[output_path := ProcessedDf.to_json_records processed_df]> disk)
  | Raise e => (Raise e, disk)
  end.
Proof.
  intros Hload matched_df genre_list processed_data.
  unfold save_matching_csv, processed_frame. rewrite Hload. simpl.
  fold matched_df. fold genre_list.
  rewrite (mapM_Ok_fmap _ (expected_row (enumerate_dict genre_list) (length genre_list))).
  - done.
  - intros row Hrow. destruct (genre_dict_complete matched_df row Hrow) as (i & Hi & Hg).
    by apply (process_row_expected _ _ _ i).
Qed.

Lemma save_matching_csv_writes (genre_text midi_folder : string) (fs : os.tree)
    (output_path : string) (disk : gmap string (list ProcessedDf.row))
    (genre_df : list GenreDf.row) :
  get_genres genre_text = Ok genre_df →
  let matched_df := get_matched_midi midi_folder fs genre_df in
  let genre_list := pd.unique (MatchedDf.Genre <$> matched_df) in
  matched_df ≠ [] →
  save_matching_csv PrettyMIDI genre_text midi_folder fs output_path disk =
  (Ok tt,
   <[output_path :=
       filter present
         (expected_row (enumerate_dict genre_list) (length genre_list) <$> matched_df)]>
     disk).
Proof.
  intros Hload matched_df genre_list Hne.
  rewrite (save_matching_csv_loaded _ _ _ _ _ genre_df Hload).
  fold matched_df. fold genre_list.
  rewrite dropna_Features_nonempty; [done|].
  by destruct matched_df.
Qed.

End Rows.

(** ** The pipeline as a whole *)

Section Dataset.
Variable PrettyMIDI : string → pretty_midi.call pretty_midi.PrettyMIDI.

(** C4: the assembler keeps exactly the processed rows with features.  On
    any list of processed rows with a row in it the filter returns the rows
    whose features are present, in order, each unchanged.  In
    [save_matching_csv], when a row is matched, the document written holds,
    for every matched row whose extraction succeeded, the record made of
    the path, the genre, the encoded genre and the features of that row,
    and nothing else; when the only matched row has a corrupted file, the
    run returns normally and the document is empty. *)
Theorem save_matching_csv_keeps_present_rows (genre_text midi_folder : string)
    (fs : os.tree) (output_path : string) (disk : gmap string (list ProcessedDf.row))
    (genre_df : list GenreDf.row) (row : MatchedDf.row) :
  get_genres genre_text = Ok genre_df →
  let matched_df := get_matched_midi midi_folder fs genre_df in
  let genre_list := pd.unique (MatchedDf.Genre <$> matched_df) in
  let record := expected_row PrettyMIDI (enumerate_dict genre_list) (length genre_list) in
  row ∈ matched_df →
  (∀ data r, r ∈ data →
     ProcessedDf.to_json_records
       <$> ProcessedDf.dropna ["Features"%string] (ProcessedDf.DataFrame data)
     = Ok (filter present data))
  ∧ save_matching_csv PrettyMIDI genre_text midi_folder fs output_path disk =
    (Ok tt, <[output_path := filter present (record <$> matched_df)]> disk)
  ∧ (∀ r, r ∈ filter present (record <$> matched_df) ↔
          ∃ row' features, row' ∈ matched_df ∧ r = record row'
            ∧ get_features PrettyMIDI (MatchedDf.Path row') = Some features)
  ∧ (matched_df = [row] → raises_or_warns (PrettyMIDI (MatchedDf.Path row)) →
     save_matching_csv PrettyMIDI genre_text midi_folder fs output_path disk =
     (Ok tt, <[output_path := []]> disk)).
Proof.
  intros Hload matched_df genre_list record Hrow.
  assert (matched_df ≠ []) as Hne by (intros E; rewrite E in Hrow; by apply elem_of_nil in Hrow).
  pose proof (save_matching_csv_writes PrettyMIDI genre_text midi_folder fs output_path
                disk genre_df Hload Hne) as Hsave.
  split; [|split; [|split]].
  - intros data r Hr. rewrite dropna_Features_nonempty; [done|].
    intros E; rewrite E in Hr; by apply elem_of_nil in Hr.
  - exact Hsave.
  - intros r. rewrite list_elem_of_filter, list_elem_of_fmap. unfold present. split.
    + intros [[features Hf] (row' & -> & Hin)]. by exists row', features.
    + intros (row' & features & Hin & -> & Hf). split; [|by exists row'].
      simpl. rewrite Hf. eauto.
  - intros Hone Hfail. rewrite Hsave. do 2 f_equal.
    fold matched_df. rewrite Hone. simpl.
    rewrite filter_cons, decide_False; [done|].
    unfold present, record. simpl.
    rewrite get_features_parse_fails by done. by intros [? ?].
Qed.

(** C2: a file whose parsing raises or warns gives [None], in place of the
    exception.  In [save_matching_csv] the row of such a file is left out
    of the document, which holds the records of the rows before it and of
    the rows after it; no record of the document has the path of the file.
    The result of a row depends on the behaviour of the parser on the file
    of that row only, so that a failure on one file changes the result of
    no other row. *)
Theorem get_features_isolates_failures :
  (∀ path, raises_or_warns (PrettyMIDI path) → get_features PrettyMIDI path = None)
  ∧ (∀ genre_text midi_folder fs output_path disk genre_df before row after,
       get_genres genre_text = Ok genre_df →
       get_matched_midi midi_folder fs genre_df = before ++ row :: after →
       raises_or_warns (PrettyMIDI (MatchedDf.Path row)) →
       let genre_list := pd.unique (MatchedDf.Genre <$> before ++ row :: after) in
       let record :=
         expected_row PrettyMIDI (enumerate_dict genre_list) (length genre_list) in
       let written := filter present (record <$> before) ++ filter present (record <$> after) in
       save_matching_csv PrettyMIDI genre_text midi_folder fs output_path disk =
       (Ok tt, <[output_path := written]> disk)
       ∧ ∀ r, r ∈ written → ProcessedDf.Path r ≠ MatchedDf.Path row)
  ∧ (∀ PrettyMIDI' row genre_dict num_classes,
       PrettyMIDI' (MatchedDf.Path row) = PrettyMIDI (MatchedDf.Path row) →
       process_row PrettyMIDI' row genre_dict num_classes =
       process_row PrettyMIDI row genre_dict num_classes).
Proof.
  split; [apply get_features_parse_fails|]. split; cycle 1.
  { intros PrettyMIDI' row genre_dict num_classes Hsame.
    unfold process_row, get_features. by rewrite Hsame. }
  intros genre_text midi_folder fs output_path disk genre_df before row after
    Hload Hmatched Hfail genre_list record written.
  assert (get_features PrettyMIDI (MatchedDf.Path row) = None) as Hnone
    by by apply get_features_parse_fails.
  split.
  - rewrite (save_matching_csv_writes PrettyMIDI _ _ _ _ _ genre_df Hload);
      [|rewrite Hmatched; by destruct before].
    rewrite Hmatched. fold genre_list. fold record.
    rewrite fmap_app, filter_app, fmap_cons, filter_cons, decide_False; [done|].
    unfold present, record. simpl. rewrite Hnone. by intros [? ?].
  - intros r Hr Hpath. unfold written in Hr.
    assert (r ∈ filter present (record <$> before ++ after)) as Hin
      by by rewrite fmap_app, filter_app.
    apply list_elem_of_filter in Hin as [[features Hf] (row' & -> & _)%list_elem_of_fmap].
    simpl in Hf, Hpath. rewrite Hpath, Hnone in Hf. done.
Qed.

(** C9: when the join gives no row, [save_matching_csv] writes nothing and
    raises the [KeyError] of [dropna]: the frame made of no processed row
    has no column, hence no [Features] column. *)
Theorem save_matching_csv_no_match (genre_text midi_folder : string) (fs : os.tree)
    (output_path : string) (disk : gmap string (list ProcessedDf.row))
    (genre_df : list GenreDf.row) :
  get_genres genre_text = Ok genre_df →
  get_matched_midi midi_folder fs genre_df = [] →
  ProcessedDf.columns (ProcessedDf.DataFrame []) = []
  ∧ ProcessedDf.dropna ["Features"%string] (ProcessedDf.DataFrame []) =
    Raise (KeyError ["Features"%string])
  ∧ save_matching_csv PrettyMIDI genre_text midi_folder fs output_path disk =
    (Raise (KeyError ["Features"%string]), disk).
Proof.
  intros Hload Hempty. destruct dropna_Features_empty as [Hcolumns Hdropna].
  split; [exact Hcolumns|]. split; [exact Hdropna|].
  rewrite (save_matching_csv_loaded PrettyMIDI _ _ _ _ _ genre_df Hload).
  rewrite Hempty. simpl fmap. by rewrite Hdropna.
Qed.

(** The encoded genre of the record of a matched row. *)
Lemma expected_row_one_hot (matched_df : list MatchedDf.row) (row : MatchedDf.row) :
  row ∈ matched_df →
  let genre_list := pd.unique (MatchedDf.Genre <$> matched_df) in
  let genre_dict := enumerate_dict genre_list in
  let num_classes := length genre_list in
  ∃ i, genre_dict !! MatchedDf.Genre row = Some i
       ∧ process_row PrettyMIDI row genre_dict num_classes =
         Ok (expected_row PrettyMIDI genre_dict num_classes row)
       ∧ length (ProcessedDf.OneHotGenre
                   (expected_row PrettyMIDI genre_dict num_classes row)) = num_classes
       ∧ ∀ j, (j < num_classes)%nat →
              ProcessedDf.OneHotGenre (expected_row PrettyMIDI genre_dict num_classes row)
                !! j = Some (if decide (Z.of_nat j = i) then 1 else 0).
Proof.
  intros Hrow genre_list genre_dict num_classes.
  destruct (genre_dict_complete matched_df row Hrow) as (k & Hk & Hg).
  fold genre_list in Hk, Hg. fold genre_dict in Hg. fold num_classes in Hk.
  exists (Z.of_nat k). split; [exact Hg|]. split.
  - by apply (process_row_expected PrettyMIDI row genre_dict num_classes k).
  - simpl. rewrite Hg, Nat2Z.id. split.
    + unfold basis. by rewrite length_fmap, length_seq.
    + intros j Hj. rewrite basis_lookup by done.
      destruct (decide (j = k)), (decide (Z.of_nat j = Z.of_nat k)); try done; lia.
Qed.

(** C5: in a run, once the labels are read, every matched row is processed
    with the mapping [genre_dict] and the number [num_classes] built from
    the genres of the matched rows.  The mapping is a bijection between the
    distinct genres and the indices below [num_classes], in the order of
    first occurrence: the index of a genre is the number of distinct genres
    met before it.  For a genre of the mapping, [one_hot] gives a vector of
    length [num_classes] with 1 at the index of the genre and 0 at every
    other position; this vector is the encoded genre [process_row] returns
    for a matched row, and the encoded genre of every record written. *)
Theorem genre_mapping_one_hot (genre_text midi_folder : string) (fs : os.tree)
    (output_path : string) (disk : gmap string (list ProcessedDf.row))
    (genre_df : list GenreDf.row) :
  get_genres genre_text = Ok genre_df →
  let matched_df := get_matched_midi midi_folder fs genre_df in
  let genres := MatchedDf.Genre <$> matched_df in
  let genre_list := pd.unique genres in
  let genre_dict := enumerate_dict genre_list in
  let num_classes := length genre_list in
  processed_frame PrettyMIDI genre_text midi_folder fs =
    (processed_data ←
       mapM (fun row => process_row PrettyMIDI row genre_dict num_classes) matched_df;
     ProcessedDf.dropna ["Features"%string] (ProcessedDf.DataFrame processed_data))
  ∧ (∀ genre, genre ∈ genres ↔ is_Some (genre_dict !! genre))
  ∧ (∀ genre i, genre_dict !! genre = Some i → 0 ≤ i < Z.of_nat num_classes)
  ∧ (∀ genre1 genre2 i,
       genre_dict !! genre1 = Some i → genre_dict !! genre2 = Some i → genre1 = genre2)
  ∧ (∀ n, (n < num_classes)%nat → ∃ genre, genre_dict !! genre = Some (Z.of_nat n))
  ∧ (∀ before genre after,
       genres = before ++ genre :: after → genre ∉ before →
       genre_dict !! genre = Some (Z.of_nat (length (pd.unique before))))
  ∧ (∀ genre i,
       genre_dict !! genre = Some i →
       ∃ encoded,
         one_hot [i] num_classes = Ok [encoded]
         ∧ length encoded = num_classes
         ∧ ∀ j, (j < num_classes)%nat →
                encoded !! j = Some (if decide (Z.of_nat j = i) then 1 else 0))
  ∧ (∀ row, row ∈ matched_df →
       ∃ i encoded,
         genre_dict !! MatchedDf.Genre row = Some i
         ∧ process_row PrettyMIDI row genre_dict num_classes =
           Ok {| ProcessedDf.Path := MatchedDf.Path row;
                 ProcessedDf.Genre := MatchedDf.Genre row;
                 ProcessedDf.OneHotGenre := encoded;
                 ProcessedDf.Features := get_features PrettyMIDI (MatchedDf.Path row) |}
         ∧ one_hot [i] num_classes = Ok [encoded])
  ∧ (∀ document r,
       save_matching_csv PrettyMIDI genre_text midi_folder fs output_path disk =
         (Ok tt, <[output_path := document]> disk) →
       r ∈ document →
       ∃ i, genre_dict !! ProcessedDf.Genre r = Some i
            ∧ one_hot [i] num_classes = Ok [ProcessedDf.OneHotGenre r]
            ∧ length (ProcessedDf.OneHotGenre r) = num_classes
            ∧ ∀ j, (j < num_classes)%nat →
                   ProcessedDf.OneHotGenre r !! j =
                   Some (if decide (Z.of_nat j = i) then 1 else 0)).
Proof.
  intros Hload matched_df genres genre_list genre_dict num_classes.
  destruct (enumerate_unique_one_hot matched_df)
    as (Hdom & Hrange & Hinj & Hsurj & Hfirst & Hhot).
  assert (∀ row, row ∈ matched_df →
            ∃ i, genre_dict !! MatchedDf.Genre row = Some i
                 ∧ process_row PrettyMIDI row genre_dict num_classes =
                   Ok (expected_row PrettyMIDI genre_dict num_classes row)
                 ∧ one_hot [i] num_classes =
                   Ok [ProcessedDf.OneHotGenre
                         (expected_row PrettyMIDI genre_dict num_classes row)]) as Hrows.
  { intros row Hrow.
    destruct (genre_dict_complete matched_df row Hrow) as (k & Hk & Hg).
    exists (Z.of_nat k). split; [exact Hg|]. split.
    - by apply (process_row_expected PrettyMIDI row genre_dict num_classes k).
    - rewrite one_hot_singleton by exact Hk. simpl.
      fold genres genre_list genre_dict in Hg |- *. by rewrite Hg, Nat2Z.id. }
  split; [|repeat (split; [assumption|])]; [|split].
  - unfold processed_frame. by rewrite Hload.
  - intros row Hrow. destruct (Hrows row Hrow) as (i & Hg & Hp & Hi).
    exists i, (ProcessedDf.OneHotGenre (expected_row PrettyMIDI genre_dict num_classes row)).
    done.
  - intros document r Hsave Hr.
    assert (matched_df ≠ []) as Hne.
    { intros Hempty. revert Hsave.
      rewrite (save_matching_csv_loaded PrettyMIDI _ _ _ _ _ genre_df Hload).
      fold matched_df. by rewrite Hempty. }
    rewrite (save_matching_csv_writes PrettyMIDI _ _ _ _ _ genre_df Hload Hne) in Hsave.
    injection Hsave as Hdoc.
    apply (f_equal (fun d => d !! output_path)) in Hdoc.
    rewrite !lookup_insert_eq in Hdoc. injection Hdoc as Hdoc.
    fold matched_df genres genre_list genre_dict num_classes in Hdoc. subst document.
    apply list_elem_of_filter in Hr as [_ (row & -> & Hrow)%list_elem_of_fmap].
    destruct (expected_row_one_hot matched_df row Hrow) as (i & Hg & _ & Hlen & Hone).
    destruct (Hrows row Hrow) as (i' & Hg' & _ & Hi').
    fold genres genre_list genre_dict num_classes in Hg, Hlen, Hone.
    assert (i' = i) as -> by congruence.
    exists i. done.
Qed.

End Dataset.

(** ** The theorems at work on the fixtures *)

Example simplefilter_escalates :
  simplefilter_default (Fixture.all_warn "song.mid") = Ok Fixture.song
  ∧ simplefilter_error (Fixture.all_warn "song.mid") = Raise (WarningError "RuntimeWarning").
Proof. split; reflexivity. Qed.

(** The end-to-end example: one matched row, one record. *)
Lemma save_matching_csv_example :
  save_matching_csv Fixture.all_valid Fixture.labels "root" Fixture.fs "out.json" ∅ =
  (Ok tt,
   <["out.json"%string :=
       [{| ProcessedDf.Path := "root/TRK001/song.mid";
           ProcessedDf.Genre := "Rock";
           ProcessedDf.OneHotGenre := [1];
           ProcessedDf.Features := Some Fixture.song_features |}]]> ∅).
Proof.
  pose (genre_df := [GenreDf.Row "Rock" "TRK001"]).
  pose (row := MatchedDf.Row "root/TRK001/song.mid" "Rock").
  assert (get_genres Fixture.labels = Ok genre_df) as Hload by (vm_compute; reflexivity).
  assert (row ∈ get_matched_midi "root" Fixture.fs genre_df) as Hrow
    by (vm_compute; apply list_elem_of_here).
  destruct (save_matching_csv_keeps_present_rows Fixture.all_valid Fixture.labels "root"
              Fixture.fs "out.json" ∅ genre_df row Hload Hrow) as (_ & Hsave & _).
  rewrite Hsave. vm_compute. reflexivity.
Defined.

(** The same run when the only matched file is corrupted. *)
Example save_matching_csv_corrupted :
  save_matching_csv Fixture.all_corrupted Fixture.labels "root" Fixture.fs "out.json" ∅ =
  (Ok tt, <["out.json"%string := []]> ∅).
Proof. vm_compute. reflexivity. Qed.

(** One corrupted file next to a valid one. *)
Lemma get_features_isolates_failures_example :
  get_features Fixture.one_corrupted "root/TRK001/bad.mid" = None
  ∧ save_matching_csv Fixture.one_corrupted Fixture.labels "root" Fixture.fs_two
      "out.json" ∅ =
    (Ok tt,
     <["out.json"%string :=
         [{| ProcessedDf.Path := "root/TRK001/song.mid";
             ProcessedDf.Genre := "Rock";
             ProcessedDf.OneHotGenre := [1];
             ProcessedDf.Features := Some Fixture.song_features |}]]> ∅).
Proof.
  destruct (get_features_isolates_failures Fixture.one_corrupted) as (Hnone & Hrun & _).
  assert (raises_or_warns (Fixture.one_corrupted "root/TRK001/bad.mid")) as Hfail
    by (right; eexists; reflexivity).
  split; [by apply Hnone|].
  destruct (Hrun Fixture.labels "root"%string Fixture.fs_two "out.json"%string ∅
              [GenreDf.Row "Rock" "TRK001"] []
              (MatchedDf.Row "root/TRK001/bad.mid" "Rock")
              [MatchedDf.Row "root/TRK001/song.mid" "Rock"]) as [Hsave _].
  - vm_compute; reflexivity.
  - vm_compute; reflexivity.
  - exact Hfail.
  - rewrite Hsave. vm_compute. reflexivity.
Defined.

(** Two files and two labels under one identifier: four rows. *)
Lemma get_matched_midi_inner_join_example :
  length (get_matched_midi "root" Fixture.fs_two
            [GenreDf.Row "Rock" "TRK001"; GenreDf.Row "Jazz" "TRK001"]) = 4%nat
  ∧ count (MergedDf.Row "TRK001" "root/TRK001/song.mid" "Jazz")
          (merge_on_TrackID (all_midi_df "root" Fixture.fs_two)
             [GenreDf.Row "Rock" "TRK001"; GenreDf.Row "Jazz" "TRK001"]) = 1%nat.
Proof.
  destruct (get_matched_midi_inner_join "root" Fixture.fs_two
              [GenreDf.Row "Rock" "TRK001"; GenreDf.Row "Jazz" "TRK001"])
    as (Hcount & _ & _ & Hlen).
  split.
  - rewrite Hlen. vm_compute. reflexivity.
  - rewrite Hcount. vm_compute. reflexivity.
Defined.

(** Two files and the labels Rock and Jazz for each: Jazz is met second,
    has index 1 and the vector [0, 1]. *)
Lemma genre_mapping_one_hot_example :
  enumerate_dict
    (pd.unique (MatchedDf.Genre <$>
                  get_matched_midi "root" Fixture.fs_two
                    [GenreDf.Row "Rock" "TRK001"; GenreDf.Row "Jazz" "TRK001"]))
    !! "Jazz"%string = Some 1
  ∧ process_row Fixture.all_valid (MatchedDf.Row "root/TRK001/song.mid" "Jazz")
      (enumerate_dict
         (pd.unique (MatchedDf.Genre <$>
                       get_matched_midi "root" Fixture.fs_two
                         [GenreDf.Row "Rock" "TRK001"; GenreDf.Row "Jazz" "TRK001"])))
      2 =
    Ok {| ProcessedDf.Path := "root/TRK001/song.mid";
          ProcessedDf.Genre := "Jazz";
          ProcessedDf.OneHotGenre := [0; 1];
          ProcessedDf.Features := Some Fixture.song_features |}.
Proof.
  assert (get_genres Fixture.labels_two =
          Ok [GenreDf.Row "Rock" "TRK001"; GenreDf.Row "Jazz" "TRK001"]) as Hload
    by (vm_compute; reflexivity).
  destruct (genre_mapping_one_hot Fixture.all_valid Fixture.labels_two "root"
              Fixture.fs_two "out.json" ∅ _ Hload)
    as (_ & _ & _ & _ & _ & Hfirst & _ & Hrow & _).
  split.
  - apply (Hfirst ["Rock"%string] "Jazz"%string ["Rock"; "Jazz"]%string).
    + vm_compute. reflexivity.
    + intros [H|H]%elem_of_cons; [discriminate H | by apply elem_of_nil in H].
  - destruct (Hrow (MatchedDf.Row "root/TRK001/song.mid" "Jazz"))
      as (i & encoded & _ & _ & _).
    + vm_compute. do 3 apply list_elem_of_further. apply list_elem_of_here.
    + vm_compute. reflexivity.
Defined.

(** A comment and a record: one label. *)
Lemma get_genres_records_example :
  ∃ genre_df,
    get_genres Fixture.labels = Ok genre_df
    ∧ Forall2 (fun line row =>
                 ∃ ignored, stripped_fields line =
                            GenreDf.TrackID row :: GenreDf.Genre row :: ignored)
              (label_lines Fixture.labels) genre_df.
Proof.
  apply (get_genres_records Fixture.labels).
  vm_compute. repeat constructor.
Defined.

(** C6, as the claim states it, fails on a line whose second field is
    empty: the line has two tab-separated fields, and the loader raises. *)
Lemma get_genres_empty_genre_field :
  Forall (fun line => 2 ≤ length (raw_fields line))%nat
         (label_lines Fixture.labels_empty_genre)
  ∧ raw_fields ("TRK001" +:+ Fixture.tab +:+ Fixture.nl) = ["TRK001"; ""]%string
  ∧ get_genres Fixture.labels_empty_genre = Raise ValueError.
Proof.
  split; [|split].
  - vm_compute. repeat constructor.
  - vm_compute. reflexivity.
  - vm_compute. reflexivity.
Qed.

(** A second line with one field only. *)
Lemma get_genres_malformed_example :
  get_genres Fixture.labels_one_field = Raise ValueError
  ∧ save_matching_csv Fixture.all_valid Fixture.labels_one_field "root" Fixture.fs
      "out.json" ∅ = (Raise ValueError, ∅).
Proof.
  destruct (get_genres_malformed Fixture.labels_one_field ("TRK002" +:+ Fixture.nl))
    as [Hraise Hrun].
  - vm_compute. apply list_elem_of_further, list_elem_of_here.
  - vm_compute. lia.
  - split; [exact Hraise|apply Hrun].
Defined.

(** The index of [root/TRK001/song.mid] and [root/TRK002/other.mid]. *)
Lemma all_midi_df_file_index_example :
  all_midi_df "root" Fixture.fs =
    [MidiDf.Row "TRK001" "root/TRK001/song.mid"; MidiDf.Row "TRK002" "root/TRK002/other.mid"]
  ∧ directory_name "data/root" = Some "root"%string
  ∧ all_midi_df "data/root" Fixture.fs_flat = [MidiDf.Row "root" "data/root/song.mid"].
Proof.
  destruct (all_midi_df_file_index "root" Fixture.fs) as [Hindex _];
    [vm_compute; reflexivity|].
  destruct (all_midi_df_file_index "data/root" Fixture.fs_flat) as (_ & Hname & _);
    [vm_compute; reflexivity|].
  split; [rewrite Hindex; vm_compute; reflexivity|].
  split; [vm_compute; reflexivity|].
  rewrite (Hname "root"%string); vm_compute; reflexivity.
Defined.

(** A root given as [.] or through [..] is indexed under [.] or [..]: the
    path does not hold the name of the directory. *)
Example all_midi_df_dot :
  all_midi_df "." Fixture.fs_flat = [MidiDf.Row "." "./song.mid"]
  ∧ all_midi_df "root/.." Fixture.fs_flat = [MidiDf.Row ".." "root/../song.mid"]
  ∧ directory_name "." = None
  ∧ directory_name "root/.." = None
  ∧ directory_name "" = None.
Proof. repeat split; vm_compute; reflexivity. Qed.

(** C8, as the claim states it, fails on a root given with a trailing [/]:
    a file directly in the root gets the empty identifier, not the name of
    the root. *)
Lemma all_midi_df_trailing_slash :
  all_midi_df "root/" Fixture.fs_flat = [MidiDf.Row "" "root//song.mid"]
  ∧ directory_name "root/" = Some "root"%string
  ∧ well_named Fixture.fs_flat = true.
Proof. repeat split; vm_compute; reflexivity. Qed.

(** No identifier in common: nothing is written. *)
Lemma save_matching_csv_no_match_example :
  save_matching_csv Fixture.all_valid Fixture.labels "root" Fixture.fs_flat "out.json" ∅ =
  (Raise (KeyError ["Features"%string]), ∅).
Proof.
  apply (save_matching_csv_no_match Fixture.all_valid Fixture.labels "root"
           Fixture.fs_flat "out.json" ∅ [GenreDf.Row "Rock" "TRK001"]).
  - vm_compute. reflexivity.
  - vm_compute. reflexivity.
Defined.

(** A file that parses and has no tempo estimate. *)
Lemma get_features_total_example :
  get_features Fixture.all_silent "root/TRK001/song.mid" = None.
Proof.
  destruct (get_features_total Fixture.all_silent "root/TRK001/song.mid")
    as (_ & _ & Htempo & _).
  apply (Htempo Fixture.silent ValueError); reflexivity.
Defined.

(** * Further properties of the script *)

(** ** The label loader: outcome, shape of the records, concatenation *)

(** The record [get_genres] makes of a line. *)
Definition label_of_line (line : string) : GenreDf.row :=
  GenreDf.Row (first_two line).2 (first_two line).1.

#[global] Instance stripped_fields_enough_dec (line : string) :
  Decision (2 ≤ length (stripped_fields line))%nat.
Proof. apply _. Defined.

(** [get_genres] in one equation: the records of the lines when every line
    that is not a comment has two fields, [ValueError] otherwise. *)
Lemma get_genres_cases (text : string) :
  get_genres text =
  if decide (Forall (fun line => 2 ≤ length (stripped_fields line))%nat (label_lines text))
  then Ok (label_of_line <$> label_lines text)
  else Raise ValueError.
Proof.
  rewrite get_genres_scan. destruct (decide _) as [Hall|Hnot].
  - rewrite scan_well_formed by done. simpl. fold (label_lines text).
    unfold genre_frame. by rewrite zip_with_fmap_l, zip_with_fmap_r, zip_with_diag.
  - apply not_Forall_Exists in Hnot; [|intros line; apply _].
    apply Exists_exists in Hnot as (line & [Hc Hin]%list_elem_of_filter & Hlen).
    simpl in Hlen. rewrite (scan_malformed _ line); [done|done|done|lia].
Qed.

(** X1: on the text read from a label file, a line that is not a comment
    and has fewer than two fields once stripped makes [get_genres] raise
    [ValueError], also when the line itself has two tab-separated fields,
    the second one blank.  When [get_genres] returns, every line that is
    not a comment had two such fields, and the frame has one row per such
    line. *)
Theorem get_genres_stripped_fields (text : string) :
  (Exists (fun line => length (stripped_fields line) < 2)%nat (label_lines text) →
   get_genres text = Raise ValueError)
  ∧ (∀ genre_df, get_genres text = Ok genre_df →
       Forall (fun line => 2 ≤ length (stripped_fields line))%nat (label_lines text)
       ∧ length genre_df = length (label_lines text)).
Proof.
  rewrite get_genres_cases. destruct (decide _) as [Hall|Hnot].
  - split.
    + intros (line & Hin & Hlen)%Exists_exists.
      rewrite Forall_forall in Hall. specialize (Hall line Hin). simpl in Hall. lia.
    + intros genre_df [= <-]. split; [done|]. by rewrite length_fmap.
  - split; [done|]. by intros genre_df.
Qed.

Lemma split_fields_without (sep : ascii) (s field : string) :
  field ∈ split sep s → occurrences sep field = 0%nat.
Proof.
  revert field. induction s as [|c r IH]; intros field; simpl.
  - by intros ->%list_elem_of_singleton.
  - destruct (Ascii.eqb c sep) eqn:Ec.
    + intros [->|Hin]%elem_of_cons; [done|by apply IH].
    + pose proof (split_nonempty sep r) as Hne.
      destruct (split sep r) as [|f fs]; [done|].
      intros [->|Hin]%elem_of_cons.
      * simpl. rewrite Ec. apply IH. by left.
      * apply IH. by right.
Qed.

Lemma lstrip_head (s : string) (c : ascii) (r : string) :
  lstrip s = String c r → isspace c = false.
Proof.
  induction s as [|d s IH]; simpl; [done|].
  destruct (isspace d) eqn:Ed; [exact IH|]. by intros [= <- _].
Qed.

Lemma rstrip_head (s : string) (c : ascii) (r : string) :
  rstrip s = String c r → ∃ r', s = String c r'.
Proof.
  destruct s as [|d s]; simpl; [done|].
  destruct (rstrip s); [destruct (isspace d)|]; intros [= <- _]; eauto.
Qed.

Lemma lstrip_fixed (s : string) (c : ascii) (r : string) :
  s = String c r → isspace c = false → lstrip s = s.
Proof. intros -> Hc. simpl. by rewrite Hc. Qed.

(** The first field of a stripped line with two fields starts with a
    character that is no whitespace. *)
Lemma stripped_first_field (line x y : string) (rest : list string) :
  stripped_fields line = x :: y :: rest →
  ∃ c r, x = String c r ∧ isspace c = false.
Proof.
  unfold stripped_fields, strip. intros Hs.
  destruct (rstrip (lstrip line)) as [|c r] eqn:Er; [done|].
  destruct (rstrip_head _ _ _ Er) as [r' Hl]. apply lstrip_head in Hl.
  simpl in Hs. destruct (Ascii.eqb_spec c TAB) as [->|Hc]; [done|].
  pose proof (split_nonempty TAB r) as Hne.
  destruct (split TAB r) as [|f fs]; [done|].
  injection Hs as <- _. eauto.
Qed.

(** X2: an identifier returned by [get_genres] is never empty, has no
    leading whitespace and holds no tab; a genre holds no tab. *)
Theorem get_genres_identifiers (text : string) (genre_df : list GenreDf.row)
    (row : GenreDf.row) :
  get_genres text = Ok genre_df → row ∈ genre_df →
  GenreDf.TrackID row ≠ EmptyString
  ∧ lstrip (GenreDf.TrackID row) = GenreDf.TrackID row
  ∧ occurrences TAB (GenreDf.TrackID row) = 0%nat
  ∧ occurrences TAB (GenreDf.Genre row) = 0%nat.
Proof.
  rewrite get_genres_cases. destruct (decide _) as [Hall|]; [|done].
  intros [= <-] (line & -> & Hin)%list_elem_of_fmap.
  rewrite Forall_forall in Hall. specialize (Hall line Hin).
  unfold label_of_line, first_two. simpl.
  destruct (stripped_fields line) as [|x [|y rest]] eqn:Es; simpl in Hall; try lia.
  destruct (stripped_first_field _ _ _ _ Es) as (c & r & -> & Hc). simpl.
  assert (∀ f, f ∈ stripped_fields line → occurrences TAB f = 0%nat) as Hfree
    by (intros f; apply split_fields_without).
  rewrite Es in Hfree. repeat split.
  - done.
  - by rewrite Hc.
  - apply (Hfree (String c r)). by left.
  - apply (Hfree y). right. by left.
Qed.

Lemma splitlines_nonempty (text : string) : text ≠ EmptyString → splitlines text ≠ [].
Proof.
  destruct text as [|c r]; [done|]. intros _. simpl.
  destruct (Ascii.eqb c LF); [done|]. by destruct (splitlines r).
Qed.

(** The lines of two texts put end to end, the first one complete. *)
Lemma splitlines_app (text1 text2 : string) :
  text1 = EmptyString ∨ endswith LF text1 = true →
  splitlines (text1 +:+ text2) = splitlines text1 ++ splitlines text2.
Proof.
  induction text1 as [|c r IH]; intros Hend; [done|].
  destruct Hend as [?|Hend]; [done|].
  assert (r = EmptyString ∨ endswith LF r = true) as Hr.
  { destruct r as [|d r]; [by left|right; exact Hend]. }
  rewrite append_cons. simpl. rewrite IH by done.
  destruct (Ascii.eqb c LF) eqn:Ec; [done|].
  destruct r as [|d r]; [simpl in Hend; congruence|].
  pose proof (splitlines_nonempty (String d r)) as Hne.
  destruct (splitlines (String d r)); [by destruct Hne|done].
Qed.

(** X3: reading two label files put end to end, the first one ending with
    a newline, gives the records of the first followed by the records of
    the second, and raises when reading either file raises. *)
Theorem get_genres_app (text1 text2 : string) :
  text1 = EmptyString ∨ endswith LF text1 = true →
  get_genres (text1 +:+ text2) =
  (genre_df1 ← get_genres text1; genre_df2 ← get_genres text2;
   Ok (genre_df1 ++ genre_df2)).
Proof.
  intros Hend. rewrite !get_genres_cases.
  unfold label_lines. rewrite splitlines_app by done.
  rewrite filter_app. fold (label_lines text1). fold (label_lines text2).
  destruct (decide (Forall _ (label_lines text1))) as [H1|H1];
    destruct (decide (Forall _ (label_lines text2))) as [H2|H2]; simpl.
  - rewrite decide_True by by apply Forall_app. by rewrite fmap_app.
  - rewrite decide_False; [done|]. by intros [_ ?]%Forall_app.
  - rewrite decide_False; [done|]. by intros [? _]%Forall_app.
  - rewrite decide_False; [done|]. by intros [? _]%Forall_app.
Qed.

(** ** The normalisation: the bounds of its input list *)

(** X4: [normalize_features] reads the first five elements only: elements
    after the fifth are ignored, and a list of fewer than five floats gives
    [IndexError]. *)
Theorem normalize_features_bounds :
  (∀ features ignored : list num,
     (5 ≤ length features)%nat →
     normalize_features (features ++ ignored) = normalize_features features)
  ∧ (∀ features : list float,
       (length features < 5)%nat →
       normalize_features (Float <$> features) = Raise IndexError).
Proof.
  split.
  - intros features ignored Hlen. unfold normalize_features, getitem.
    by rewrite !lookup_app_l by lia.
  - intros features Hlen.
    destruct features as [|a [|b [|c [|d [|e features]]]]]; simpl in Hlen;
      try lia; reflexivity.
Qed.

(** ** The file index: one row per file, identifiers without [/] *)




Lemma rows_of_entry_TrackID (entry : string * list string * list string)
    (row : MidiDf.row) :
  row ∈ rows_of_entry entry → occurrences SLASH (MidiDf.TrackID row) = 0%nat.
Proof.
  destruct entry as [[dir_name dirs] file_list]. unfold rows_of_entry.
  intros (file & -> & _)%list_elem_of_fmap. simpl.
  apply (split_fields_without SLASH dir_name).
  unfold last_field. pose proof (split_nonempty SLASH dir_name) as Hne.
  destruct (split SLASH dir_name) as [|f fs] using rev_ind; [done|].
  rewrite last_last. apply elem_of_app. right. by left.
Qed.

Lemma all_midi_df_TrackID (midi_folder : string) (fs : os.tree) (row : MidiDf.row) :
  row ∈ all_midi_df midi_folder fs → occurrences SLASH (MidiDf.TrackID row) = 0%nat.
Proof.
  rewrite all_midi_df_walk. rewrite list_elem_of_In, in_flat_map.
  intros (entry & _ & Hrow). apply (rows_of_entry_TrackID entry).
  by apply list_elem_of_In.
Qed.

(** A row is in the join exactly when it is made of a file row and of a
    label row with the same identifier. *)
Lemma elem_of_merge_on_TrackID (left : list MidiDf.row) (right : list GenreDf.row)
    (r : MergedDf.row) :
  r ∈ merge_on_TrackID left right ↔
  MidiDf.Row (MergedDf.TrackID r) (MergedDf.Path r) ∈ left
  ∧ GenreDf.Row (MergedDf.Genre r) (MergedDf.TrackID r) ∈ right.
Proof.
  destruct r as [t p g]. simpl.
  rewrite <- !count_pos, merge_on_TrackID_count. nia.
Qed.

(** X6: an identifier of the file index never holds a [/], so that a label
    whose identifier holds one is matched with no file. *)
Theorem merge_on_TrackID_no_slash (midi_folder : string) (fs : os.tree)
    (genre_df : list GenreDf.row) :
  (∀ row, row ∈ all_midi_df midi_folder fs →
          occurrences SLASH (MidiDf.TrackID row) = 0%nat)
  ∧ (∀ r, r ∈ merge_on_TrackID (all_midi_df midi_folder fs) genre_df →
          occurrences SLASH (MergedDf.TrackID r) = 0%nat).
Proof.
  split; [apply all_midi_df_TrackID|].
  intros r [Hfile _]%elem_of_merge_on_TrackID.
  by apply all_midi_df_TrackID in Hfile.
Qed.

(** ** The matcher: membership, emptiness, labels without duplicates *)

Lemma elem_of_get_matched_midi (midi_folder : string) (fs : os.tree)
    (genre_df : list GenreDf.row) (r : MatchedDf.row) :
  r ∈ get_matched_midi midi_folder fs genre_df ↔
  ∃ track_id,
    MidiDf.Row track_id (MatchedDf.Path r) ∈ all_midi_df midi_folder fs
    ∧ GenreDf.Row (MatchedDf.Genre r) track_id ∈ genre_df.
Proof.
  unfold get_matched_midi, drop_TrackID. rewrite list_elem_of_fmap. split.
  - intros ([t p g] & -> & Hin%elem_of_merge_on_TrackID). simpl in *. by exists t.
  - intros (t & Hm & Hg). exists (MergedDf.Row t (MatchedDf.Path r) (MatchedDf.Genre r)).
    split; [by destruct r|]. by apply elem_of_merge_on_TrackID.
Qed.

(** X7: a pair of a path and a genre is a matched row exactly when some
    identifier is that of a file with this path and of a label with this
    genre; no row is matched exactly when no file and no label share an
    identifier. *)
Theorem get_matched_midi_elem_of (midi_folder : string) (fs : os.tree)
    (genre_df : list GenreDf.row) :
  (∀ r, r ∈ get_matched_midi midi_folder fs genre_df ↔
        ∃ track_id,
          MidiDf.Row track_id (MatchedDf.Path r) ∈ all_midi_df midi_folder fs
          ∧ GenreDf.Row (MatchedDf.Genre r) track_id ∈ genre_df)
  ∧ (get_matched_midi midi_folder fs genre_df = [] ↔
     ∀ file label, file ∈ all_midi_df midi_folder fs → label ∈ genre_df →
                   MidiDf.TrackID file ≠ GenreDf.TrackID label).
Proof.
  split; [apply elem_of_get_matched_midi|]. split.
  - intros Hempty [t p] [g t'] Hfile Hlabel. simpl. intros <-.
    assert (MatchedDf.Row p g ∈ get_matched_midi midi_folder fs genre_df) as Hin
      by (apply elem_of_get_matched_midi; by exists t).
    rewrite Hempty in Hin. by apply elem_of_nil in Hin.
  - intros Hdisjoint.
    destruct (get_matched_midi midi_folder fs genre_df) as [|r rows] eqn:E; [done|].
    assert (r ∈ get_matched_midi midi_folder fs genre_df) as Hin
      by (rewrite E; by left).
    apply elem_of_get_matched_midi in Hin as (t & Hfile & Hlabel).
    by destruct (Hdisjoint _ _ Hfile Hlabel).
Qed.



Lemma merge_on_TrackID_app (left1 left2 : list MidiDf.row) (right : list GenreDf.row) :
  merge_on_TrackID (left1 ++ left2) right =
  merge_on_TrackID left1 right ++ merge_on_TrackID left2 right.
Proof.
  induction left1 as [|m left1 IH]; [done|].
  rewrite <- app_comm_cons, !merge_on_TrackID_cons, IH. by rewrite app_assoc.
Qed.

(** The identifiers of a label frame are not empty. *)
Lemma get_genres_TrackID_nonempty (text : string) (genre_df : list GenreDf.row)
    (row : GenreDf.row) :
  get_genres text = Ok genre_df → row ∈ genre_df → GenreDf.TrackID row ≠ EmptyString.
Proof.
  rewrite get_genres_cases. destruct (decide _) as [Hall|]; [|done].
  intros [= <-] (line & -> & Hin)%list_elem_of_fmap.
  rewrite Forall_forall in Hall. specialize (Hall line Hin).
  unfold label_of_line, first_two. simpl.
  destruct (stripped_fields line) as [|x [|y rest]] eqn:Es; simpl in Hall; try lia.
  by destruct (stripped_first_field _ _ _ _ Es) as (c & r & -> & _).
Qed.

(** X9: when [midi_folder] ends with [/], the files directly in the root
    get the empty identifier, which no label has: they are matched with
    nothing, and the matched rows are those of the tree without them. *)
Theorem get_matched_midi_trailing_slash (text midi_folder : string)
    (files : list string) (dirs : list (string * os.tree))
    (genre_df : list GenreDf.row) :
  get_genres text = Ok genre_df →
  endswith SLASH midi_folder = true →
  get_matched_midi midi_folder (os.Dir files dirs) genre_df =
  get_matched_midi midi_folder (os.Dir [] dirs) genre_df.
Proof.
  intros Hload Hend. unfold get_matched_midi. f_equal.
  rewrite !all_midi_df_walk. simpl.
  rewrite merge_on_TrackID_app. rewrite last_field_trailing by done.
  assert (merge_on_TrackID
            ((fun file => MidiDf.Row "" (midi_folder +:+ "/" +:+ file)) <$> files)
            genre_df = []) as ->; [|done].
  destruct (merge_on_TrackID _ genre_df) as [|r rows] eqn:E; [done|].
  assert (r ∈ merge_on_TrackID
                ((fun file => MidiDf.Row "" (midi_folder +:+ "/" +:+ file)) <$> files)
                genre_df) as Hin by (rewrite E; by left).
  apply elem_of_merge_on_TrackID in Hin as [Hfile Hlabel].
  apply list_elem_of_fmap in Hfile as (file & [= Hid _] & _).
  apply (get_genres_TrackID_nonempty _ _ _ Hload) in Hlabel. simpl in Hlabel.
  congruence.
Qed.

(** ** The encoder: labels in and out of range *)

Lemma mapM_Raise {A B : Type} (f : A → result B) (e : exn) (l : list A) :
  (∀ x e', f x = Raise e' → e' = e) →
  Exists (fun x => f x = Raise e) l → mapM f l = Raise e.
Proof.
  intros Honly. induction l as [|x l IH]; intros Hex; [by apply Exists_nil in Hex|].
  simpl. destruct (f x) as [y|e'] eqn:Ex; simpl.
  - apply Exists_cons in Hex as [Hx|Hl]; [congruence|]. by rewrite IH.
  - by rewrite (Honly x e' Ex).
Qed.

(** The row of [np.eye(n)] a label selects. *)
Definition eye_row (n : nat) (label : Z) : result (list float) :=
  let size := Z.of_nat (length (np.eye n)) in
  if (0 <=? label) && (label <? size) then getitem (np.eye n) (Z.to_nat label)
  else if (- size <=? label) && (label <? 0) then getitem (np.eye n) (Z.to_nat (label + size))
  else Raise IndexError.

Lemma eye_row_in_range (n : nat) (label : Z) :
  - Z.of_nat n ≤ label < Z.of_nat n →
  eye_row n label =
  Ok ((fun j => if Nat.eqb (Z.to_nat (label mod Z.of_nat n)) j then 1%float else 0%float)
        <$> seq 0 n).
Proof.
  intros Hrange. unfold eye_row, getitem. rewrite eye_length.
  destruct (Z.leb_spec 0 label) as [Hpos|Hneg]; simpl.
  - rewrite (proj2 (Z.ltb_lt _ _)) by lia.
    rewrite Z.mod_small by lia. by rewrite eye_lookup by lia.
  - rewrite (proj2 (Z.leb_le _ _)), (proj2 (Z.ltb_lt _ _)) by lia. simpl.
    assert (label mod Z.of_nat n = label + Z.of_nat n) as ->.
    { symmetry. apply (Z.mod_unique _ _ (-1)); lia. }
    by rewrite eye_lookup by lia.
Qed.

Lemma eye_row_out_of_range (n : nat) (label : Z) :
  label < - Z.of_nat n ∨ Z.of_nat n ≤ label → eye_row n label = Raise IndexError.
Proof.
  intros Hrange. unfold eye_row. rewrite eye_length.
  destruct (Z.leb_spec 0 label), (Z.ltb_spec label (Z.of_nat n)),
    (Z.leb_spec (- Z.of_nat n) label), (Z.ltb_spec label 0); simpl; try lia; done.
Qed.

Lemma eye_row_raises (n : nat) (label : Z) (e : exn) :
  eye_row n label = Raise e → e = IndexError.
Proof.
  destruct (decide (- Z.of_nat n ≤ label < Z.of_nat n)) as [Hin|Hout].
  - by rewrite eye_row_in_range.
  - rewrite eye_row_out_of_range by lia. by intros [= <-].
Qed.

Lemma basis_of_eye_row (n i : nat) :
  np.astype_int <$> ((fun j => if Nat.eqb i j then 1%float else 0%float) <$> seq 0 n)
  = basis n i.
Proof.
  unfold basis. rewrite <- list_fmap_compose.
  apply list_fmap_ext. intros _ j _. simpl. by destruct (Nat.eqb i j).
Qed.

(** X10: [one_hot] accepts the labels from [-num_classes] to
    [num_classes - 1]: it returns one vector per label, in order, the
    vector of a label being the basis vector at the label taken modulo
    [num_classes], so that a negative label counts from the end.  A label
    outside this range anywhere in the array gives [IndexError]. *)
Theorem one_hot_range (labels : list Z) (num_classes : nat) :
  (Forall (fun label => - Z.of_nat num_classes ≤ label < Z.of_nat num_classes) labels →
   one_hot labels num_classes =
   Ok ((fun label => basis num_classes (Z.to_nat (label mod Z.of_nat num_classes)))
         <$> labels))
  ∧ (Exists (fun label => label < - Z.of_nat num_classes ∨ Z.of_nat num_classes ≤ label)
            labels →
     one_hot labels num_classes = Raise IndexError).
Proof.
  unfold one_hot, np.take. fold (eye_row num_classes). split.
  - intros Hall. rewrite Forall_forall in Hall.
    rewrite (mapM_Ok_fmap _
               (fun label => (fun j => if Nat.eqb (Z.to_nat (label mod Z.of_nat num_classes)) j
                                     then 1%float else 0%float) <$> seq 0 num_classes)).
    + simpl. f_equal. rewrite <- list_fmap_compose.
      apply list_fmap_ext. intros _ label _. simpl. apply basis_of_eye_row.
    + intros label Hin. apply eye_row_in_range. by apply Hall.
  - intros Hex. rewrite (mapM_Raise _ IndexError); [done|apply eye_row_raises|].
    eapply Exists_impl; [exact Hex|]. intros label. apply eye_row_out_of_range.
Qed.

(** ** The row processor: its three outcomes *)

Section RowOutcomes.
Variable PrettyMIDI : string → pretty_midi.call pretty_midi.PrettyMIDI.

(** X11: [process_row] raises [KeyError] with the genre when the genre is
    no key of the dictionary, [IndexError] when the index of the genre is
    not from [-num_classes] to [num_classes - 1], and otherwise returns the
    path and the genre of the row, the basis vector at the index and the
    features of the file, be they [None]. *)
Theorem process_row_outcomes (row : MatchedDf.row) (genre_dict : gmap string Z)
    (num_classes : nat) :
  (genre_dict !! MatchedDf.Genre row = None →
   process_row PrettyMIDI row genre_dict num_classes =
   Raise (KeyError [MatchedDf.Genre row]))
  ∧ (∀ i, genre_dict !! MatchedDf.Genre row = Some i →
          i < - Z.of_nat num_classes ∨ Z.of_nat num_classes ≤ i →
          process_row PrettyMIDI row genre_dict num_classes = Raise IndexError)
  ∧ (∀ i, genre_dict !! MatchedDf.Genre row = Some i →
          - Z.of_nat num_classes ≤ i < Z.of_nat num_classes →
          process_row PrettyMIDI row genre_dict num_classes =
          Ok {| ProcessedDf.Path := MatchedDf.Path row;
                ProcessedDf.Genre := MatchedDf.Genre row;
                ProcessedDf.OneHotGenre :=
                  basis num_classes (Z.to_nat (i mod Z.of_nat num_classes));
                ProcessedDf.Features := get_features PrettyMIDI (MatchedDf.Path row) |}).
Proof.
  unfold process_row, dict_getitem, one_hot, np.take. fold (eye_row num_classes).
  split; [|split].
  - by intros ->.
  - intros i -> Hout. simpl. by rewrite eye_row_out_of_range.
  - intros i -> Hin. simpl. rewrite eye_row_in_range by done. simpl.
    by rewrite basis_of_eye_row.
Qed.

(** X12: with the dictionary and the number of classes [save_matching_csv]
    builds from the matched rows, [process_row] raises on no matched row:
    the genre of the row is a key, and its index is in range. *)
Theorem process_row_wired (matched_df : list MatchedDf.row) (row : MatchedDf.row) :
  row ∈ matched_df →
  let genre_list := pd.unique (MatchedDf.Genre <$> matched_df) in
  ∃ i, genre_list !! i = Some (MatchedDf.Genre row)
       ∧ process_row PrettyMIDI row (enumerate_dict genre_list) (length genre_list) =
         Ok {| ProcessedDf.Path := MatchedDf.Path row;
               ProcessedDf.Genre := MatchedDf.Genre row;
               ProcessedDf.OneHotGenre := basis (length genre_list) i;
               ProcessedDf.Features := get_features PrettyMIDI (MatchedDf.Path row) |}.
Proof.
  intros Hrow genre_list.
  destruct (genre_dict_complete matched_df row Hrow) as (i & Hi & Hg).
  fold genre_list in Hi, Hg. exists i. split.
  - apply (enumerate_dict_lookup genre_list) in Hg as (n & Hn%Nat2Z.inj & Hl);
      [by subst|apply NoDup_unique].
  - rewrite (process_row_expected PrettyMIDI row _ _ i Hg Hi).
    unfold expected_row. by rewrite Hg, Nat2Z.id.
Qed.

End RowOutcomes.

(** ** The genre mapping under more rows *)

(** X13: the index of a genre does not change when rows are added after
    the matched rows: the genres already met keep their indices, whatever
    the genres of the added rows. *)
Theorem genre_index_stable (matched_df more : list MatchedDf.row) (genre : string) :
  genre ∈ MatchedDf.Genre <$> matched_df →
  enumerate_dict (pd.unique (MatchedDf.Genre <$> matched_df ++ more)) !! genre =
  enumerate_dict (pd.unique (MatchedDf.Genre <$> matched_df)) !! genre.
Proof.
  intros Hin. rewrite fmap_app. unfold pd.unique at 1. rewrite unique_from_app.
  fold (pd.unique (MatchedDf.Genre <$> matched_df)).
  set (known := pd.unique (MatchedDf.Genre <$> matched_df)).
  set (new := pd.unique_from _ (MatchedDf.Genre <$> more)).
  assert (NoDup (known ++ new)) as Hnd.
  { unfold known, new, pd.unique. rewrite <- unique_from_app. apply NoDup_unique_from. }
  apply (proj2 (elem_of_unique _ _)) in Hin. fold known in Hin.
  apply list_elem_of_lookup in Hin as [i Hi].
  transitivity (Some (Z.of_nat i)).
  - apply enumerate_dict_lookup; [done|]. exists i. split; [done|].
    rewrite lookup_app_l; [done|]. by eapply lookup_lt_Some.
  - symmetry. apply enumerate_dict_lookup; [apply NoDup_unique|]. eauto.
Qed.

(** ** The extractor: the default time signature *)

(** The normalisation of the list [get_features] builds. *)
Lemma normalize_features_mixed (t : float) (n r a b : Z) :
  normalize_features [Float t; Int n; Int r; Int a; Int b] =
  (x1 ← int_truediv (n - 2) 10;
   x2 ← int_truediv (r - 260) 400;
   x3 ← int_truediv (a - 3) 8;
   x4 ← int_truediv (b - 3) 8;
   Ok [Float ((t - 150) / 300); Float x1; Float x2; Float x3; Float x4]).
Proof.
  unfold normalize_features, getitem. simpl.
  destruct (int_truediv (n - 2) 10); simpl; [|done].
  destruct (int_truediv (r - 260) 400); simpl; [|done].
  destruct (int_truediv (a - 3) 8); simpl; [|done].
  by destruct (int_truediv (b - 3) 8).
Qed.

Section DefaultSignature.
Variable PrettyMIDI : string → pretty_midi.call pretty_midi.PrettyMIDI.

(** X14: for a file without any time-signature change the extractor takes
    the signature 4/4: when features are returned, the second is
    [(0 - 2) / 10] and the last two are [(4 - 3) / 8]. *)
Theorem get_features_default_signature (path : string) (file : pretty_midi.PrettyMIDI)
    (features : list num) :
  simplefilter_error (PrettyMIDI path) = Ok file →
  pretty_midi.time_signature_changes file = [] →
  get_features PrettyMIDI path = Some features →
  features !! 1%nat = Some (Float (-0.2))
  ∧ features !! 3%nat = Some (Float 0.125)
  ∧ features !! 4%nat = Some (Float 0.125).
Proof.
  intros Hfile Hts. rewrite get_features_unfold, Hfile. simpl.
  destruct (simplefilter_error (pretty_midi.estimate_tempo file)) as [tempo|];
    simpl; [|done].
  unfold raw_features. rewrite Hts. change (Z.of_nat (length [])) with 0.
  rewrite normalize_features_mixed.
  assert (int_truediv (0 - 2) 10 = Ok (-0.2)%float) as -> by (vm_compute; reflexivity).
  assert (int_truediv (4 - 3) 8 = Ok 0.125%float) as -> by (vm_compute; reflexivity).
  destruct (int_truediv (pretty_midi.resolution file - 260) 400) as [r|]; simpl; [|done].
  by intros [= <-].
Qed.

Lemma get_features_Some_length (path : string) (features : list num) :
  get_features PrettyMIDI path = Some features → length features = 5%nat.
Proof.
  rewrite get_features_unfold.
  destruct (simplefilter_error (PrettyMIDI path)) as [file|]; simpl; [|done].
  destruct (simplefilter_error (pretty_midi.estimate_tempo file)) as [tempo|];
    simpl; [|done].
  destruct (normalize_features (raw_features file tempo)) as [v|] eqn:E; [|done].
  intros [= <-]. by apply normalize_features_length in E as [? _].
Qed.

End DefaultSignature.

(** ** The run: what it writes *)

Section Run.
Variable PrettyMIDI : string → pretty_midi.call pretty_midi.PrettyMIDI.

(** X17: every record of a document the run writes has a list of five
    features and a one-hot vector whose length is the number of distinct
    genres of the matched rows, those of the rows left out included; the
    position of the 1 is the position of the genre of the record among
    these genres.  The document has no more records than matched rows. *)
Theorem save_matching_csv_document (genre_text midi_folder : string) (fs : os.tree)
    (output_path : string) (disk : gmap string (list ProcessedDf.row))
    (genre_df : list GenreDf.row) :
  get_genres genre_text = Ok genre_df →
  (save_matching_csv PrettyMIDI genre_text midi_folder fs output_path disk).1 = Ok tt →
  let matched_df := get_matched_midi midi_folder fs genre_df in
  let genre_list := pd.unique (MatchedDf.Genre <$> matched_df) in
  ∃ document,
    (save_matching_csv PrettyMIDI genre_text midi_folder fs output_path disk).2
      !! output_path = Some document
    ∧ (length document ≤ length matched_df)%nat
    ∧ ∀ r, r ∈ document →
        (∃ features, ProcessedDf.Features r = Some features ∧ length features = 5%nat)
        ∧ ∃ i, ProcessedDf.OneHotGenre r = basis (length genre_list) i
               ∧ genre_list !! i = Some (ProcessedDf.Genre r).
Proof.
  intros Hload Hok matched_df genre_list.
  assert (matched_df ≠ []) as Hne.
  { intros Hempty. revert Hok.
    rewrite (save_matching_csv_loaded PrettyMIDI _ _ _ _ _ genre_df Hload).
    fold matched_df. by rewrite Hempty. }
  rewrite (save_matching_csv_writes PrettyMIDI _ _ _ _ _ genre_df Hload Hne).
  fold matched_df. fold genre_list. simpl. rewrite lookup_insert_eq.
  eexists; split; [reflexivity|]. split.
  - etrans; [apply length_filter|]. by rewrite length_fmap.
  - intros r [[features Hf] (row & -> & Hrow)%list_elem_of_fmap]%list_elem_of_filter.
    simpl in Hf. split.
    + exists features. split; [done|]. by eapply get_features_Some_length.
    + destruct (genre_dict_complete matched_df row Hrow) as (i & Hi & Hg).
      fold genre_list in Hi, Hg. exists i. simpl. rewrite Hg, Nat2Z.id. split; [done|].
      apply (enumerate_dict_lookup genre_list) in Hg as (n & Hn%Nat2Z.inj & Hl);
        [by subst|apply NoDup_unique].
Qed.

(** X18: when a row is matched, the document written is empty exactly when
    the extraction failed on the file of every matched row. *)
Theorem save_matching_csv_empty_document (genre_text midi_folder : string)
    (fs : os.tree) (output_path : string) (disk : gmap string (list ProcessedDf.row))
    (genre_df : list GenreDf.row) :
  get_genres genre_text = Ok genre_df →
  get_matched_midi midi_folder fs genre_df ≠ [] →
  (save_matching_csv PrettyMIDI genre_text midi_folder fs output_path disk).2
    !! output_path = Some []
  ↔ ∀ row, row ∈ get_matched_midi midi_folder fs genre_df →
           get_features PrettyMIDI (MatchedDf.Path row) = None.
Proof.
  intros Hload Hne.
  rewrite (save_matching_csv_writes PrettyMIDI _ _ _ _ _ genre_df Hload Hne).
  simpl. rewrite lookup_insert_eq.
  set (record := expected_row PrettyMIDI _ _). split.
  - intros [= Hempty] row Hrow.
    destruct (get_features PrettyMIDI (MatchedDf.Path row)) as [features|] eqn:Hf; [|done].
    assert (record row ∈ filter present (record <$> get_matched_midi midi_folder fs genre_df))
      as Hin.
    { apply list_elem_of_filter. split; [|by apply list_elem_of_fmap_2].
      unfold present, record. simpl. rewrite Hf. eauto. }
    rewrite Hempty in Hin. by apply elem_of_nil in Hin.
  - intros Hall. f_equal.
    destruct (filter present _) as [|r rs] eqn:E; [done|].
    assert (r ∈ filter present (record <$> get_matched_midi midi_folder fs genre_df))
      as Hin by (rewrite E; by left).
    apply list_elem_of_filter in Hin as [[features Hf] (row & -> & Hrow)%list_elem_of_fmap].
    simpl in Hf. by rewrite (Hall row Hrow) in Hf.
Qed.

End Run.

(** ** The script run as a program *)

Section Main.
Variable PrettyMIDI : string → pretty_midi.call pretty_midi.PrettyMIDI.



End Main.

(** ** These properties at work on the fixtures *)

Lemma get_genres_identifiers_example :
  GenreDf.TrackID (GenreDf.Row "Rock" "TRK001") ≠ EmptyString
  ∧ lstrip (GenreDf.TrackID (GenreDf.Row "Rock" "TRK001")) = "TRK001"%string
  ∧ occurrences TAB (GenreDf.TrackID (GenreDf.Row "Rock" "TRK001")) = 0%nat
  ∧ occurrences TAB (GenreDf.Genre (GenreDf.Row "Rock" "TRK001")) = 0%nat.
Proof.
  apply (get_genres_identifiers Fixture.labels [GenreDf.Row "Rock" "TRK001"]).
  - vm_compute. reflexivity.
  - apply list_elem_of_here.
Defined.

Lemma get_genres_app_example :
  get_genres (Fixture.labels +:+ Fixture.labels_two) =
  Ok [GenreDf.Row "Rock" "TRK001"; GenreDf.Row "Rock" "TRK001"; GenreDf.Row "Jazz" "TRK001"].
Proof.
  rewrite (get_genres_app Fixture.labels Fixture.labels_two).
  - vm_compute. reflexivity.
  - right. vm_compute. reflexivity.
Defined.

Lemma normalize_features_bounds_example :
  normalize_features ((Float <$> [120; 0; 480; 4; 4]%float) ++ [Int 7]) =
  Ok Fixture.song_features
  ∧ normalize_features (Float <$> [120; 0; 480]%float) = Raise IndexError.
Proof.
  destruct normalize_features_bounds as [Hignored Hshort]. split.
  - rewrite Hignored by (simpl; lia). vm_compute. reflexivity.
  - apply Hshort. simpl. lia.
Defined.


Lemma get_matched_midi_trailing_slash_example :
  get_matched_midi "root/" (os.Dir ["TRK001"; "song.mid"] [("TRK001", os.Dir ["song.mid"] [])])
    [GenreDf.Row "Rock" "TRK001"] =
  [MatchedDf.Row "root/TRK001/song.mid" "Rock"].
Proof.
  rewrite (get_matched_midi_trailing_slash Fixture.labels).
  - vm_compute. reflexivity.
  - vm_compute. reflexivity.
  - vm_compute. reflexivity.
Defined.

Lemma one_hot_range_example :
  one_hot [0; -1] 3 = Ok [[1; 0; 0]; [0; 0; 1]]
  ∧ one_hot [0; 3] 3 = Raise IndexError.
Proof.
  destruct (one_hot_range [0; -1] 3) as [Hin _].
  destruct (one_hot_range [0; 3] 3) as [_ Hout].
  split.
  - rewrite Hin; [vm_compute; reflexivity|].
    repeat constructor; simpl; lia.
  - apply Hout. apply Exists_cons_tl, Exists_cons_hd. simpl. lia.
Defined.

Lemma process_row_outcomes_example :
  process_row Fixture.all_valid (MatchedDf.Row "a.mid" "Rock") ∅ 0 =
  Raise (KeyError ["Rock"%string]).
Proof.
  destruct (process_row_outcomes Fixture.all_valid (MatchedDf.Row "a.mid" "Rock") ∅ 0)
    as [Hmissing _].
  apply Hmissing. reflexivity.
Defined.

Lemma process_row_wired_example :
  ∃ i, pd.unique (MatchedDf.Genre <$> Fixture.matched_three) !! i = Some "Jazz"%string
       ∧ process_row Fixture.all_valid (MatchedDf.Row "b.mid" "Jazz")
           (enumerate_dict (pd.unique (MatchedDf.Genre <$> Fixture.matched_three)))
           (length (pd.unique (MatchedDf.Genre <$> Fixture.matched_three))) =
         Ok {| ProcessedDf.Path := "b.mid";
               ProcessedDf.Genre := "Jazz";
               ProcessedDf.OneHotGenre :=
                 basis (length (pd.unique (MatchedDf.Genre <$> Fixture.matched_three))) i;
               ProcessedDf.Features := get_features Fixture.all_valid "b.mid" |}.
Proof.
  apply (process_row_wired Fixture.all_valid Fixture.matched_three
           (MatchedDf.Row "b.mid" "Jazz")).
  apply list_elem_of_further, list_elem_of_here.
Defined.

Lemma genre_index_stable_example :
  enumerate_dict
    (pd.unique (MatchedDf.Genre <$> Fixture.matched_three ++ [MatchedDf.Row "d.mid" "Pop"]))
    !! "Jazz"%string = Some 1.
Proof.
  rewrite (genre_index_stable Fixture.matched_three [MatchedDf.Row "d.mid" "Pop"]).
  - vm_compute. reflexivity.
  - vm_compute. apply list_elem_of_further, list_elem_of_here.
Defined.

Lemma get_features_default_signature_example :
  Fixture.song_features !! 1%nat = Some (Float (-0.2))
  ∧ Fixture.song_features !! 3%nat = Some (Float 0.125)
  ∧ Fixture.song_features !! 4%nat = Some (Float 0.125).
Proof.
  apply (get_features_default_signature Fixture.all_valid "song.mid" Fixture.song).
  - reflexivity.
  - reflexivity.
  - vm_compute. reflexivity.
Defined.

Lemma save_matching_csv_document_example :
  ∃ document,
    (save_matching_csv Fixture.all_valid Fixture.labels "root" Fixture.fs "out.json" ∅).2
      !! "out.json"%string = Some document
    ∧ (length document ≤ 1)%nat
    ∧ ∀ r, r ∈ document →
        (∃ features, ProcessedDf.Features r = Some features ∧ length features = 5%nat)
        ∧ ∃ i, ProcessedDf.OneHotGenre r = basis 1 i
               ∧ ["Rock"%string] !! i = Some (ProcessedDf.Genre r).
Proof.
  apply (save_matching_csv_document Fixture.all_valid Fixture.labels "root" Fixture.fs
           "out.json" ∅ [GenreDf.Row "Rock" "TRK001"]).
  - vm_compute. reflexivity.
  - vm_compute. reflexivity.
Defined.

Lemma save_matching_csv_empty_document_example :
  (save_matching_csv Fixture.all_corrupted Fixture.labels "root" Fixture.fs "out.json" ∅).2
    !! "out.json"%string = Some [].
Proof.
  apply (save_matching_csv_empty_document Fixture.all_corrupted Fixture.labels "root"
           Fixture.fs "out.json" ∅ [GenreDf.Row "Rock" "TRK001"]).
  - vm_compute. reflexivity.
  - vm_compute. discriminate.
  - intros row Hrow. reflexivity.
Defined.


Lemma get_genres_stripped_fields_example :
  get_genres ("TRK001" +:+ Fixture.tab +:+ " " +:+ Fixture.nl) = Raise ValueError
  ∧ raw_fields ("TRK001" +:+ Fixture.tab +:+ " " +:+ Fixture.nl) = ["TRK001"; " "]%string.
Proof.
  destruct (get_genres_stripped_fields ("TRK001" +:+ Fixture.tab +:+ " " +:+ Fixture.nl))
    as [Hraise _].
  split; [|vm_compute; reflexivity].
  apply Hraise. vm_compute. apply Exists_cons_hd. lia.
Defined.
